(** * useFetchData: a shallow embedding of the data-fetching hook

    The hook lives in [src/hooks/useFetchData.js] (listed in the README,
    lines 157-199) and is consumed by [src/components/Users.jsx].  The
    hook keeps three React state cells ([data], [loading], [error]) and
    one asynchronous function [fetchData], which is split here at its two
    [await]s into the segments that JavaScript runs to completion. *)

From stdpp Require Import gmap strings list fin_maps.
From Stdlib Require Import ZArith.

Open Scope string_scope.

(** ** JavaScript values *)

(** The payload decoded by [response.json()], the thrown values and the
    contents of the state cells are JavaScript values.  Numbers are kept
    to the integers. *)
#[warnings="-register-all"]
Inductive value : Type :=
| VUndefined
| VNull
| VBool (b : bool)
| VNum (n : Z)
| VStr (s : string)
| VArr (items : list value)
| VObj (fields : list (string * value)).

(** [if (v)]: the truthiness test of JavaScript. *)
Definition truthy (v : value) : bool :=
  match v with
  | VUndefined | VNull => false
  | VBool b => b
  | VNum n => negb (n =? 0)%Z
  | VStr s => negb (String.eqb s "")
  | VArr _ | VObj _ => true
  end.

(** Own-property lookup in an object literal; a missing key reads as
    [undefined]. *)
Fixpoint field (k : string) (fs : list (string * value)) : value :=
  match fs with
  | [] => VUndefined
  | (k', v) :: rest => if String.eqb k k' then v else field k rest
  end.

(** [new Error(msg)]. *)
Definition new_Error (msg : string) : value :=
  VObj [("message", VStr msg)].

(** The [TypeError] raised when a property of [null] or [undefined] is
    read; the text of its message is the engine's. *)
Definition new_TypeError (prop : string) : value :=
  VObj [("name", VStr "TypeError");
        ("message", VStr ("Cannot read properties of null or undefined (reading '"
                          ++ prop ++ "')"))].

(** ** The transport *)

(** What a promise settles to. *)
Inductive settled (A : Type) : Type :=
| Resolved (a : A)
| Rejected (e : value).
Arguments Resolved {A} a.
Arguments Rejected {A} e.

(** The part of a [Response] the hook looks at: [response.ok], and what
    the promise returned by [response.json()] settles to.  The status
    code and text are carried along although the hook never reads
    them. *)
Record Response : Type := mkResponse {
  ok : bool;
  status_code : Z;
  statusText : string;
  json : settled value
}.

(** A request handed to [fetch]. *)
Record Request : Type := mkRequest {
  req_url : string;
  req_options : value
}.

(** ** The state the hook owns and the console *)

(** The three [useState] cells (lines 167-169). *)
Record HookState : Type := mkHook {
  data : value;
  loading : bool;
  error : value
}.

(** [useState(null)], [useState(true)], [useState(null)]. *)
Definition initial_state : HookState :=
  {| data := VNull; loading := true; error := VNull |}.

(** A [console.log] call: the chalk colour, the coloured text and the
    extra argument, if any. *)
Inductive colour : Type := Blue | Green | Red.

Record LogLine : Type := mkLog {
  tint : colour;
  text : string;
  extra : option value
}.

Record World : Type := mkWorld {
  hook : HookState;
  console : list LogLine;
  requests : list Request
}.

(** ** A state-and-exception monad for the synchronous segments *)

Inductive completion (A : Type) : Type :=
| Normal (a : A)
| Throw (e : value).
Arguments Normal {A} a.
Arguments Throw {A} e.

Definition M (A : Type) : Type := World -> completion A * World.

Definition ret {A} (a : A) : M A := fun w => (Normal a, w).

Definition throw {A} (e : value) : M A := fun w => (Throw e, w).

Definition bind {A B} (m : M A) (k : A -> M B) : M B :=
  fun w =>
    match m w with
    | (Normal a, w') => k a w'
    | (Throw e, w') => (Throw e, w')
    end.

Notation "x <- m ;; k" := (bind m (fun x => k))
  (at level 100, m at next level, right associativity).
Notation "m ;;; k" := (bind m (fun _ => k))
  (at level 100, right associativity).

Definition setData (v : value) : M unit :=
  fun w =>
    (Normal tt,
     {| hook := {| data := v; loading := loading (hook w); error := error (hook w) |};
        console := console w; requests := requests w |}).

Definition setLoading (b : bool) : M unit :=
  fun w =>
    (Normal tt,
     {| hook := {| data := data (hook w); loading := b; error := error (hook w) |};
        console := console w; requests := requests w |}).

Definition setError (v : value) : M unit :=
  fun w =>
    (Normal tt,
     {| hook := {| data := data (hook w); loading := loading (hook w); error := v |};
        console := console w; requests := requests w |}).

Definition console_log (l : LogLine) : M unit :=
  fun w =>
    (Normal tt,
     {| hook := hook w; console := console w ++ [l]; requests := requests w |}).

(** [fetch(url, options)]: the request leaves; its promise settles in a
    later turn of the event loop. *)
Definition fetch (url : string) (options : value) : M unit :=
  fun w =>
    (Normal tt,
     {| hook := hook w; console := console w;
        requests := requests w ++ [mkRequest url options] |}).

(** [v.prop]: reading a property of [null] or [undefined] throws; a
    primitive or an array has no such own property. *)
Definition get_property (v : value) (prop : string) : M value :=
  match v with
  | VUndefined | VNull => throw (new_TypeError prop)
  | VObj fs => ret (field prop fs)
  | VBool _ | VNum _ | VStr _ | VArr _ => ret VUndefined
  end.

(** [await p] once [p] has settled. *)
Definition await {A} (p : settled A) : M A :=
  match p with
  | Resolved a => ret a
  | Rejected e => throw e
  end.

(** ** fetchData (lines 172-189) *)

(** Where a segment of the [try] block stops: at the next [await], or at
    the end of the block. *)
Inductive progress : Type :=
| Suspended (r : Response)
| Finished.

(** Lines 173-177, up to the first [await]. *)
Definition fetchData_begin (url : string) (options : value) : M unit :=
  setLoading true ;;;
  console_log (mkLog Blue ("Fetching data from: " ++ url) None) ;;;
  fetch url options.

(** Lines 177-180: from the settled [fetch] to the [await] of
    [response.json()]. *)
Definition after_fetch (p : settled Response) : M progress :=
  response <- await p ;;
  if negb (ok response) then throw (new_Error "Failed to fetch data")
  else ret (Suspended response).

(** Lines 180-182: from the settled [response.json()] to the end of the
    [try] block. *)
Definition after_json (p : settled value) : M progress :=
  result <- await p ;;
  console_log (mkLog Green "Data fetched successfully!" (Some result)) ;;;
  setData result ;;;
  ret Finished.

(** Lines 183-185.  [err.message] is an argument of [console.log], so it
    is read before the line is printed. *)
Definition catch_block (err : value) : M unit :=
  m <- get_property err "message" ;;
  console_log (mkLog Red "Error fetching data:" (Some m)) ;;;
  m' <- get_property err "message" ;;
  setError m'.

(** Lines 186-188. *)
Definition finally_block : M unit := setLoading false.

(** [try { seg } catch (err) { ... } finally { ... }] around one segment.
    A segment that suspends leaves the handlers for the segment that
    resumes it; [finally] runs after the block and after the handler,
    also when the handler itself throws. *)
Definition try_catch_finally (seg : M progress) : M progress :=
  fun w =>
    match seg w with
    | (Normal (Suspended r), w1) => (Normal (Suspended r), w1)
    | (Normal Finished, w1) => (finally_block ;;; ret Finished) w1
    | (Throw e, w1) =>
        match catch_block e w1 with
        | (Normal _, w2) => (finally_block ;;; ret Finished) w2
        | (Throw e', w2) => (finally_block ;;; throw e') w2
        end
    end.

(** ** The controller: the hook instance and its attempts in flight *)

(** An attempt waits for [fetch] or for [response.json()]. *)
Inductive stage : Type :=
| AwaitFetch
| AwaitJson (r : Response).

(** [unhandled] collects the rejections of the promises returned by
    [fetchData]: neither the effect (line 193) nor the button handler
    attaches a handler to them. *)
Record Controller : Type := mkController {
  world : World;
  inflight : gmap nat stage;
  next_id : nat;
  unhandled : list value
}.

Inductive event : Type :=
| Trigger
| FetchSettles (id : nat) (p : settled Response)
| JsonSettles (id : nat).

(** The bookkeeping after a segment of attempt [id] ran. *)
Definition resume (id : nat) (c : Controller) (r : completion progress * World)
  : Controller :=
  match r with
  | (Normal (Suspended resp), w) =>
      {| world := w; inflight := <[id := AwaitJson resp]> (inflight c);
         next_id := next_id c; unhandled := unhandled c |}
  | (Normal Finished, w) =>
      {| world := w; inflight := delete id (inflight c);
         next_id := next_id c; unhandled := unhandled c |}
  | (Throw e, w) =>
      {| world := w; inflight := delete id (inflight c);
         next_id := next_id c; unhandled := unhandled c ++ [e] |}
  end.

Section Hook.

(** The arguments of [useFetchData(url, options = {})] (line 166),
    closed over by [fetchData]. *)
Variable url : string.
Variable options : value.

(** One turn of the event loop.  [Trigger] is a call of [fetchData]:
    the effect of line 193 or the consumer's [refetch]. *)
Definition step (ev : event) (c : Controller) : option Controller :=
  match ev with
  | Trigger =>
      let '(_, w) := fetchData_begin url options (world c) in
      Some {| world := w;
              inflight := <[next_id c := AwaitFetch]> (inflight c);
              next_id := S (next_id c);
              unhandled := unhandled c |}
  | FetchSettles id p =>
      match inflight c !! id with
      | Some AwaitFetch =>
          Some (resume id c (try_catch_finally (after_fetch p) (world c)))
      | _ => None
      end
  | JsonSettles id =>
      match inflight c !! id with
      | Some (AwaitJson r) =>
          Some (resume id c (try_catch_finally (after_json (json r)) (world c)))
      | _ => None
      end
  end.

Fixpoint run (evs : list event) (c : Controller) : option Controller :=
  match evs with
  | [] => Some c
  | ev :: rest =>
      match step ev c with
      | Some c' => run rest c'
      | None => None
      end
  end.

End Hook.

(** The default of [options] (line 166). *)
Definition default_options : value := VObj [].

(** The controller when the component mounts, before the effect runs. *)
Definition fresh : Controller :=
  {| world := {| hook := initial_state; console := []; requests := [] |};
     inflight := ∅; next_id := 0; unhandled := [] |}.

(** The events that take attempt [id] from its settled [fetch] to its
    end: [response.json()] is awaited only for an [ok] response. *)
Definition settle (id : nat) (p : settled Response) : list event :=
  match p with
  | Resolved r =>
      if ok r then [FetchSettles id p; JsonSettles id] else [FetchSettles id p]
  | Rejected _ => [FetchSettles id p]
  end.

(** One attempt from its start to its end with nothing in between. *)
Definition attempt (c : Controller) (p : settled Response) : list event :=
  Trigger :: settle (next_id c) p.

(** What the hook returns to the consumer (line 196), after [evs]. *)
Definition exposed (url : string) (options : value) (evs : list event)
  (c : Controller) : option HookState :=
  (fun c' => hook (world c')) <$> run url options evs c.

(** ** The consumer's view (Users.jsx, lines 9-12) *)

Inductive status : Type := Pending | Failed | Succeeded.

Definition status_of (h : HookState) : status :=
  if loading h then Pending
  else if truthy (error h) then Failed
  else Succeeded.

(** ** What an attempt amounts to *)

(** How the [try] block (lines 176-182) ends, as a function of what the
    transport answers: it reaches line 182 with the decoded [result], or
    an exception reaches the [catch] of line 183. *)
Inductive outcome : Type :=
| Returned (result : value)
| Raised (err : value).

Definition outcome_of (p : settled Response) : outcome :=
  match p with
  | Rejected e => Raised e
  | Resolved r =>
      if ok r then
        match json r with
        | Resolved v => Returned v
        | Rejected e => Raised e
        end
      else Raised (new_Error "Failed to fetch data")
  end.

(** [null] and [undefined] have no properties to read. *)
Definition nullish (v : value) : bool :=
  match v with
  | VUndefined | VNull => true
  | _ => false
  end.

(** The value of [err.message] when the read does not throw. *)
Definition message (err : value) : value :=
  match err with
  | VObj fs => field "message" fs
  | _ => VUndefined
  end.

Definition started_line (url : string) : LogLine :=
  mkLog Blue ("Fetching data from: " ++ url) None.

Definition succeeded_line (result : value) : LogLine :=
  mkLog Green "Data fetched successfully!" (Some result).

Definition failed_line (msg : value) : LogLine :=
  mkLog Red "Error fetching data:" (Some msg).

(** The controller right after a call of [fetchData]. *)
Definition started (url : string) (options : value) (c : Controller) : Controller :=
  {| world :=
       {| hook := {| data := data (hook (world c)); loading := true;
                     error := error (hook (world c)) |};
          console := console (world c) ++ [started_line url];
          requests := requests (world c) ++ [mkRequest url options] |};
     inflight := <[next_id c := AwaitFetch]> (inflight c);
     next_id := S (next_id c);
     unhandled := unhandled c |}.

(** The world after the handlers ran on a thrown [e]. *)
Definition handled (e : value) (w : World) : completion progress * World :=
  if nullish e then
    (Throw (new_TypeError "message"),
     {| hook := {| data := data (hook w); loading := false; error := error (hook w) |};
        console := console w; requests := requests w |})
  else
    (Normal Finished,
     {| hook := {| data := data (hook w); loading := false; error := message e |};
        console := console w ++ [failed_line (message e)];
        requests := requests w |}).

(** The controller after attempt [id] ran to its end with outcome [o]. *)
Definition completed (id : nat) (o : outcome) (c : Controller) : Controller :=
  match o with
  | Returned v =>
      {| world :=
           {| hook := {| data := v; loading := false; error := error (hook (world c)) |};
              console := console (world c) ++ [succeeded_line v];
              requests := requests (world c) |};
         inflight := delete id (inflight c);
         next_id := next_id c;
         unhandled := unhandled c |}
  | Raised e => resume id c (handled e (world c))
  end.

(** The answers of the transport among the events, in order. *)
Definition answers (evs : list event) : list (settled Response) :=
  flat_map (fun ev => match ev with FetchSettles _ p => [p] | _ => [] end) evs.

Definition succeeds (p : settled Response) : bool :=
  match outcome_of p with
  | Returned _ => true
  | Raised _ => false
  end.

Definition fails (p : settled Response) : bool := negb (succeeds p).

(** The lines an attempt prints after its attempt-started line. *)
Definition closing_lines (o : outcome) : list LogLine :=
  match o with
  | Returned v => [succeeded_line v]
  | Raised e => if nullish e then [] else [failed_line (message e)]
  end.

(** Every attempt waiting for its body will decode it. *)
Definition bodies_decode (c : Controller) : Prop :=
  forall id r, inflight c !! id = Some (AwaitJson r) ->
               exists v, json r = Resolved v.

(** Every attempt waiting for its body will fail to decode it. *)
Definition bodies_break (c : Controller) : Prop :=
  forall id r, inflight c !! id = Some (AwaitJson r) ->
               exists e, json r = Rejected e.

(** A state cell holds something other than [null]. *)
Definition populated (v : value) : bool :=
  match v with
  | VNull => false
  | _ => true
  end.

(** Attempt A starts, attempt B starts before A has settled, B runs to
    its end. *)
Definition overlap (c : Controller) (pB : settled Response) : list event :=
  Trigger :: Trigger :: settle (S (next_id c)) pB.

(** ... and then A runs to its end. *)
Definition race (c : Controller) (pA pB : settled Response) : list event :=
  overlap c pB ++ settle (next_id c) pA.

(** ** Sample data: the consumer of Users.jsx *)

Definition users_url : string := "https://jsonplaceholder.typicode.com/users".

Definition two_users : value :=
  VArr [VObj [("id", VNum 1); ("name", VStr "a")];
        VObj [("id", VNum 2); ("name", VStr "b")]].

Definition ok_response : Response :=
  {| ok := true; status_code := 200; statusText := "OK";
     json := Resolved two_users |}.

Definition server_error : Response :=
  {| ok := false; status_code := 500; statusText := "Internal Server Error";
     json := Resolved (VObj []) |}.

Definition broken_body : Response :=
  {| ok := true; status_code := 200; statusText := "OK";
     json := Rejected (new_Error "Unexpected token < in JSON at position 0") |}.

(** ** React elements and the consumers *)

(** The only function the consumers hand to an element is the hook's
    [refetch]. *)
Inductive callback : Type := Refetch.

Record attrs : Type := mkAttrs {
  className : option string;
  key : option value;
  onClick : option callback
}.

(** A JSX element: literal text, an expression in braces, or a tag. *)
#[warnings="-register-all"]
Inductive element : Type :=
| Text (s : string)
| Expr (v : value)
| Tag (name : string) (a : attrs) (children : list element).

Definition plain : attrs :=
  {| className := None; key := None; onClick := None |}.

Definition class (name : string) : attrs :=
  {| className := Some name; key := None; onClick := None |}.

Definition keyed (k : value) : attrs :=
  {| className := None; key := Some k; onClick := None |}.

Definition clicks (f : callback) : attrs :=
  {| className := None; key := None; onClick := Some f |}.

(** Sequencing of expressions that may throw, outside the hook. *)
Definition and_then {A B} (m : completion A) (k : A -> completion B)
  : completion B :=
  match m with
  | Normal a => k a
  | Throw e => Throw e
  end.

(** [v.prop] in an expression: as [get_property], without a world. *)
Definition read (v : value) (prop : string) : completion value :=
  match v with
  | VUndefined | VNull => Throw (new_TypeError prop)
  | VObj fs => Normal (field prop fs)
  | VBool _ | VNum _ | VStr _ | VArr _ => Normal VUndefined
  end.

(** The [TypeError] raised when something that is not a function is
    called; the text of its message is the engine's. *)
Definition not_a_function (callee : string) : value :=
  VObj [("name", VStr "TypeError");
        ("message", VStr (callee ++ " is not a function"))].

(** The callback of [map] applied to the items in order; the first
    exception ends the loop. *)
Fixpoint map_elements (cb : value -> completion element) (items : list value)
  : completion (list element) :=
  match items with
  | [] => Normal []
  | x :: rest =>
      and_then (cb x) (fun el =>
      and_then (map_elements cb rest) (fun els =>
      Normal (el :: els)))
  end.

(** [v.map(cb)]: only an array has a [map] to call. *)
Definition array_map (callee : string) (cb : value -> completion element)
    (v : value) : completion (list element) :=
  match v with
  | VUndefined | VNull => Throw (new_TypeError "map")
  | VArr items => map_elements cb items
  | VBool _ | VNum _ | VStr _ | VObj _ => Throw (not_a_function callee)
  end.

(** [<li key={item.id}>{item.<shown>}</li>], the callback of both
    consumers.  The two reads are written in the order of the source
    text; which of them a compiled component performs first does not
    change the element, and an item that is null or undefined throws on
    either. *)
Definition list_entry (shown : string) (item : value) : completion element :=
  and_then (read item "id") (fun id =>
  and_then (read item shown) (fun caption =>
  Normal (Tag "li" (keyed id) [Expr caption]))).

(** src/components/Users.jsx, lines 4-23, on what the hook returned. *)
Definition Users (h : HookState) : completion element :=
  if loading h then
    Normal (Tag "p" (class "loading") [Text "Loading users..."])
  else if truthy (error h) then
    Normal (Tag "p" (class "error") [Text "Error: "; Expr (error h)])
  else
    and_then (array_map "data.map" (list_entry "name") (data h)) (fun entries =>
    Normal (Tag "div" (class "container")
              [Tag "h2" plain [Text "Users"];
               Tag "button" (clicks Refetch) [Text "Refresh Posts"];
               Tag "ul" plain entries])).

(** src/components/Posts.jsx after the refactoring (README, lines
    216-235). *)
Definition Posts (h : HookState) : completion element :=
  if loading h then
    Normal (Tag "p" (class "loading") [Text "Loading posts..."])
  else if truthy (error h) then
    Normal (Tag "p" (class "error") [Text "Error: "; Expr (error h)])
  else
    and_then (array_map "data.map" (list_entry "title") (data h)) (fun entries =>
    Normal (Tag "div" (class "container")
              [Tag "h2" plain [Text "Posts"];
               Tag "button" (clicks Refetch) [Text "Refresh Posts"];
               Tag "ul" plain entries])).

Definition posts_url : string := "https://jsonplaceholder.typicode.com/posts".

(** The functions an element offers to call, in document order. *)
Fixpoint handlers (el : element) : list callback :=
  match el with
  | Text _ | Expr _ => []
  | Tag _ a children =>
      (match onClick a with Some f => [f] | None => [] end
       ++ flat_map handlers children)%list
  end.

(** The [li] a consumer shows for an item that is not null or
    undefined. *)
Definition member (prop : string) (v : value) : value :=
  match v with
  | VObj fs => field prop fs
  | _ => VUndefined
  end.

Definition entry_of (shown : string) (item : value) : element :=
  Tag "li" (keyed (member "id" item)) [Expr (member shown item)].

Definition is_array (v : value) : bool :=
  match v with
  | VArr _ => true
  | _ => false
  end.

(** ** The hook across renders (lines 166, 192-196) *)

(** A mounted component: the arguments of the last render, closed over
    by the [fetchData] that this render returned as [refetch], and the
    state that persists across renders. *)
Record Instance : Type := mkInstance {
  current_url : string;
  current_options : value;
  controller : Controller
}.

(** A render with new arguments, or a turn of the event loop; [Trigger]
    there is the consumer calling the current [refetch]. *)
Inductive react_event : Type :=
| Render (url : string) (options : value)
| Loop (ev : event).

(** The first render and its effect (line 193). *)
Definition mount (url : string) (options : value) : option Instance :=
  mkInstance url options <$> step url options Trigger fresh.

(** The effect runs again only when [url], its one dependency (line
    194), differs from the previous render's. *)
Definition react_step (ev : react_event) (i : Instance) : option Instance :=
  match ev with
  | Render url options =>
      if String.eqb url (current_url i) then
        Some (mkInstance url options (controller i))
      else
        mkInstance url options <$> step url options Trigger (controller i)
  | Loop ev =>
      mkInstance (current_url i) (current_options i)
        <$> step (current_url i) (current_options i) ev (controller i)
  end.

Fixpoint react_run (evs : list react_event) (i : Instance) : option Instance :=
  match evs with
  | [] => Some i
  | ev :: rest =>
      match react_step ev i with
      | Some i' => react_run rest i'
      | None => None
      end
  end.

(** ** The components before the refactoring (README, lines 66-102 and
    110-146) *)

(** [useState([])], [useState(true)], [useState(null)]: the list cell
    takes the place of [data]. *)
Definition legacy_state : HookState :=
  {| data := VArr []; loading := true; error := VNull |}.

Definition legacy_world : World :=
  {| hook := legacy_state; console := []; requests := [] |}.

(** The first [then] callback (lines 73-78): it throws, or returns the
    promise of [res.json()]. *)
Definition legacy_check (failure : string) (res : Response) : M Response :=
  if negb (ok res) then throw (new_Error failure) else ret res.

(** The second [then] callback (lines 79-82). *)
Definition legacy_store (d : value) : M unit :=
  setData d ;;;
  setLoading false.

(** The [catch] callback (lines 83-86). *)
Definition legacy_catch (err : value) : M unit :=
  m <- get_property err "message" ;;
  setError m ;;;
  setLoading false.

(** [promise.catch(handler)]. *)
Definition or_catch (chain : M unit) (handler : value -> M unit) : M unit :=
  fun w =>
    match chain w with
    | (Normal u, w1) => (Normal u, w1)
    | (Throw e, w1) => handler e w1
    end.

(** The effect of lines 71-87, run once on mount: [fetch(url)] with no
    options, and the chain on what the transport answers. *)
Definition legacy_effect (url failure : string) (p : settled Response) : M unit :=
  fetch url VUndefined ;;;
  or_catch
    (res <- await p ;;
     checked <- legacy_check failure res ;;
     d <- await (json checked) ;;
     legacy_store d)
    legacy_catch.

(** [Users] before the refactoring (lines 110-146): no button. *)
Definition Users_before (h : HookState) : completion element :=
  if loading h then
    Normal (Tag "p" (class "loading") [Text "Loading users..."])
  else if truthy (error h) then
    Normal (Tag "p" (class "error") [Text "Error: "; Expr (error h)])
  else
    and_then (array_map "users.map" (list_entry "name") (data h)) (fun entries =>
    Normal (Tag "div" (class "container")
              [Tag "h2" plain [Text "Users"];
               Tag "ul" plain entries])).

(** The answers that make a handler throw: what reaches it is [null] or
    [undefined]. *)
Definition contained (p : settled Response) : bool :=
  match outcome_of p with
  | Returned _ => true
  | Raised e => negb (nullish e)
  end.

(** The calls of [fetchData] among the events. *)
Fixpoint triggers (evs : list event) : nat :=
  match evs with
  | [] => 0
  | Trigger :: rest => S (triggers rest)
  | _ :: rest => triggers rest
  end.

(** ** The arguments a call of [refetch] closes over *)

(** The arguments of the last render among the events, or those the
    component was mounted with. *)
Fixpoint last_render (url : string) (options : value) (evs : list react_event)
  : string * value :=
  match evs with
  | [] => (url, options)
  | Render url' options' :: rest => last_render url' options' rest
  | Loop _ :: rest => last_render url options rest
  end.

(** Every render among the events passes the same arguments. *)
Definition renders_keep (url : string) (options : value)
    (evs : list react_event) : Prop :=
  Forall (fun ev => match ev with
                    | Render url' options' => url' = url /\ options' = options
                    | Loop _ => True
                    end) evs.

(** Options other than the default. *)
Definition post_options : value := VObj [("method", VStr "POST")].

(** ** Invariants of the runs *)

(** No attempt waiting for its body will be rejected with [null] or
    [undefined]. *)
Definition bodies_contained (c : Controller) : Prop :=
  forall id r e, inflight c !! id = Some (AwaitJson r) ->
                 json r = Rejected e -> nullish e = false.

(** [data] is what it was at the start, or the decoded body of an [ok]
    response among [seen]; the attempts waiting for their body wait on
    [ok] responses among [seen]. *)
Definition data_from_responses (d0 : value) (seen : list (settled Response))
    (c : Controller) : Prop :=
  (data (hook (world c)) = d0
   \/ exists r, In (Resolved r) seen /\ ok r = true
                /\ json r = Resolved (data (hook (world c))))
  /\ forall id r, inflight c !! id = Some (AwaitJson r) ->
                  In (Resolved r) seen /\ ok r = true.

(** ** What the chain before the refactoring amounts to *)

(** The answer is a response that is not [ok]. *)
Definition status_rejected (p : settled Response) : bool :=
  match p with
  | Resolved r => negb (ok r)
  | Rejected _ => false
  end.

(** How the chain of lines 72-82 ends: as [outcome_of], with the
    component's own text for a response that is not [ok]. *)
Definition legacy_outcome (failure : string) (p : settled Response) : outcome :=
  if status_rejected p then Raised (new_Error failure) else outcome_of p.

(** ** More sample data *)

Definition two_posts : value :=
  VArr [VObj [("id", VNum 1); ("title", VStr "a")];
        VObj [("id", VNum 2); ("title", VStr "b")]].

Definition posts_response : Response :=
  {| ok := true; status_code := 200; statusText := "OK";
     json := Resolved two_posts |}.

(** The controller after a mount attempt that got a 500. *)
Definition failed_once : Controller :=
  {| world :=
       {| hook := {| data := VNull; loading := false;
                     error := VStr "Failed to fetch data" |};
          console := [started_line users_url;
                      failed_line (VStr "Failed to fetch data")];
          requests := [mkRequest users_url default_options] |};
     inflight := ∅; next_id := 1; unhandled := [] |}.

(** * Lemmas on the segments *)

Lemma get_property_message (e : value) (w : World) :
  nullish e = false ->
  get_property e "message" w = (Normal (message e), w).
Proof. destruct e; simpl; intros H; try discriminate H; reflexivity. Qed.

Lemma try_throw (seg : M progress) (e : value) (w w1 : World) :
  seg w = (Throw e, w1) ->
  try_catch_finally seg w = handled e w1.
Proof.
  intros Hseg. unfold try_catch_finally. rewrite Hseg.
  destruct e; reflexivity.
Qed.

Lemma try_suspend (seg : M progress) (r : Response) (w w1 : World) :
  seg w = (Normal (Suspended r), w1) ->
  try_catch_finally seg w = (Normal (Suspended r), w1).
Proof. intros Hseg. unfold try_catch_finally. now rewrite Hseg. Qed.

Lemma after_fetch_ok (r : Response) (w : World) :
  ok r = true -> after_fetch (Resolved r) w = (Normal (Suspended r), w).
Proof. intros Hok. unfold after_fetch, bind, await, ret. now rewrite Hok. Qed.

Lemma after_fetch_not_ok (r : Response) (w : World) :
  ok r = false ->
  after_fetch (Resolved r) w = (Throw (new_Error "Failed to fetch data"), w).
Proof. intros Hok. unfold after_fetch, bind, await, ret. now rewrite Hok. Qed.

Lemma after_fetch_rejected (e : value) (w : World) :
  after_fetch (Rejected e) w = (Throw e, w).
Proof. reflexivity. Qed.

Lemma after_json_rejected (e : value) (w : World) :
  after_json (Rejected e) w = (Throw e, w).
Proof. reflexivity. Qed.

Lemma try_json_resolved (v : value) (w : World) :
  try_catch_finally (after_json (Resolved v)) w
  = (Normal Finished,
     {| hook := {| data := v; loading := false; error := error (hook w) |};
        console := console w ++ [succeeded_line v];
        requests := requests w |}).
Proof. reflexivity. Qed.

Lemma handled_data (e : value) (w : World) :
  data (hook (snd (handled e w))) = data (hook w).
Proof. unfold handled. destruct (nullish e); reflexivity. Qed.

Lemma handled_loading (e : value) (w : World) :
  loading (hook (snd (handled e w))) = false.
Proof. unfold handled. destruct (nullish e); reflexivity. Qed.

Lemma world_resume (id : nat) (c : Controller) (r : completion progress * World) :
  world (resume id c r) = snd r.
Proof. destruct r as [[[resp|]|e] w]; reflexivity. Qed.

Lemma handled_error_nullish (e : value) (w : World) :
  nullish e = true -> error (hook (snd (handled e w))) = error (hook w).
Proof. unfold handled. now intros ->. Qed.

Lemma handled_requests (e : value) (w : World) :
  requests (snd (handled e w)) = requests w.
Proof. unfold handled. destruct (nullish e); reflexivity. Qed.

Lemma inflight_resume_handled (id : nat) (c : Controller) (e : value) (w : World) :
  inflight (resume id c (handled e w)) = delete id (inflight c).
Proof. unfold handled. destruct (nullish e); reflexivity. Qed.

Lemma try_after_fetch (p : settled Response) (w : World) :
  try_catch_finally (after_fetch p) w
  = match p with
    | Resolved r =>
        if ok r then (Normal (Suspended r), w)
        else handled (new_Error "Failed to fetch data") w
    | Rejected e => handled e w
    end.
Proof.
  destruct p as [r|e].
  - destruct (ok r) eqn:Hok.
    + apply try_suspend, after_fetch_ok, Hok.
    + apply try_throw, after_fetch_not_ok, Hok.
  - apply try_throw, after_fetch_rejected.
Qed.

Lemma try_after_json (p : settled value) (w : World) :
  try_catch_finally (after_json p) w
  = match p with
    | Resolved v =>
        (Normal Finished,
         {| hook := {| data := v; loading := false; error := error (hook w) |};
            console := console w ++ [succeeded_line v];
            requests := requests w |})
    | Rejected e => handled e w
    end.
Proof.
  destruct p as [v|e]; [apply try_json_resolved|].
  apply try_throw, after_json_rejected.
Qed.

Lemma settled_status (h : HookState) :
  loading h = false ->
  status_of h <> Pending /\ (status_of h = Succeeded \/ status_of h = Failed).
Proof.
  intros Hl. unfold status_of. rewrite Hl.
  destruct (truthy (error h)); split; auto; discriminate.
Qed.

Lemma succeeds_inv (p : settled Response) :
  succeeds p = true ->
  exists r v, p = Resolved r /\ ok r = true /\ json r = Resolved v.
Proof.
  unfold succeeds. destruct p as [r|e]; cbn [outcome_of]; [|discriminate].
  destruct (ok r) eqn:Hok; [|discriminate].
  destruct (json r) as [v|e] eqn:Hj; [|discriminate].
  intros _. now exists r, v.
Qed.

(** * Lemmas on the controller *)

Section Runs.

Variable url : string.
Variable options : value.

Lemma step_Trigger (c : Controller) :
  step url options Trigger c = Some (started url options c).
Proof. reflexivity. Qed.

Lemma run_app (evs1 evs2 : list event) (c : Controller) :
  run url options (evs1 ++ evs2) c
  = run url options evs1 c ≫= run url options evs2.
Proof.
  revert c. induction evs1 as [|ev evs1 IH]; intros c; simpl; [reflexivity|].
  destruct (step url options ev c) as [c'|]; simpl; [apply IH | reflexivity].
Qed.

Lemma step_FetchSettles (c : Controller) (id : nat) (p : settled Response) :
  inflight c !! id = Some AwaitFetch ->
  step url options (FetchSettles id p) c
  = Some (resume id c (try_catch_finally (after_fetch p) (world c))).
Proof. intros Hid. cbn [step]. now rewrite Hid. Qed.

Lemma step_JsonSettles (c : Controller) (id : nat) (r : Response) :
  inflight c !! id = Some (AwaitJson r) ->
  step url options (JsonSettles id) c
  = Some (resume id c (try_catch_finally (after_json (json r)) (world c))).
Proof. intros Hid. cbn [step]. now rewrite Hid. Qed.

(** An attempt whose [fetch] has not settled yet runs to its end once
    the transport answers. *)
Lemma run_settle (c : Controller) (id : nat) (p : settled Response) :
  inflight c !! id = Some AwaitFetch ->
  run url options (settle id p) c = Some (completed id (outcome_of p) c).
Proof.
  intros Hid. destruct p as [r|e]; cbn [settle outcome_of].
  - destruct (ok r) eqn:Hok; cbn [run].
    + rewrite (step_FetchSettles _ _ _ Hid).
      rewrite (try_suspend _ r _ _ (after_fetch_ok r _ Hok)).
      cbn [resume].
      erewrite step_JsonSettles by (cbn [inflight]; apply lookup_insert_eq).
      cbn [world next_id unhandled inflight].
      destruct (json r) as [v|e].
      * rewrite try_json_resolved. cbn [resume completed world inflight next_id unhandled].
        now rewrite delete_insert_eq.
      * rewrite (try_throw _ e _ _ (after_json_rejected e _)).
        cbn [completed]. unfold handled.
        destruct (nullish e); cbn [resume world inflight next_id unhandled];
          now rewrite delete_insert_eq.
    + rewrite (step_FetchSettles _ _ _ Hid).
      now rewrite (try_throw _ _ _ _ (after_fetch_not_ok r _ Hok)).
  - cbn [run]. rewrite (step_FetchSettles _ _ _ Hid).
    now rewrite (try_throw _ e _ _ (after_fetch_rejected e _)).
Qed.

Lemma inflight_completed (id : nat) (o : outcome) (c : Controller) :
  inflight (completed id o c) = delete id (inflight c).
Proof. destruct o; [reflexivity | apply inflight_resume_handled]. Qed.

(** Only a call of [fetchData] issues a request, and always the same. *)
Lemma step_requests (ev : event) (c c' : Controller) :
  step url options ev c = Some c' ->
  Forall (eq (mkRequest url options)) (requests (world c)) ->
  Forall (eq (mkRequest url options)) (requests (world c')).
Proof.
  intros Hstep Hreq. destruct ev as [|id p|id]; cbn [step] in Hstep.
  - injection Hstep as <-. cbn. apply Forall_app. split; [exact Hreq|].
    now constructor.
  - destruct (inflight c !! id) as [[|r]|]; try discriminate.
    injection Hstep as <-. rewrite world_resume, try_after_fetch.
    destruct p as [r|e]; [destruct (ok r)|];
      rewrite ?handled_requests; exact Hreq.
  - destruct (inflight c !! id) as [[|r]|]; try discriminate.
    injection Hstep as <-. rewrite world_resume, try_after_json.
    destruct (json r) as [v|e]; rewrite ?handled_requests; exact Hreq.
Qed.

Lemma run_requests (evs : list event) (c c' : Controller) :
  run url options evs c = Some c' ->
  Forall (eq (mkRequest url options)) (requests (world c)) ->
  Forall (eq (mkRequest url options)) (requests (world c')).
Proof.
  revert c. induction evs as [|ev evs IH]; intros c Hrun Hreq; cbn [run] in Hrun.
  - now injection Hrun as <-.
  - destruct (step url options ev c) as [c1|] eqn:Hstep; [|discriminate].
    eapply IH; [exact Hrun|]. eapply step_requests; eassumption.
Qed.

(** While every answer is a success, [error] stays as it is. *)
Lemma step_keeps_error (ev : event) (c c' : Controller) :
  step url options ev c = Some c' ->
  forallb succeeds (answers [ev]) = true ->
  bodies_decode c ->
  error (hook (world c')) = error (hook (world c)) /\ bodies_decode c'.
Proof.
  intros Hstep Hans Hdec. destruct ev as [|id p|id]; cbn [step] in Hstep.
  - injection Hstep as <-. split; [reflexivity|].
    intros j r Hj. cbn in Hj. apply lookup_insert_Some in Hj.
    destruct Hj as [[_ Heq]|[_ Hj]]; [discriminate | eauto].
  - destruct (inflight c !! id) as [[|r0]|]; try discriminate.
    injection Hstep as <-. cbn in Hans. rewrite andb_true_r in Hans.
    destruct (succeeds_inv p Hans) as (r & v & -> & Hok & Hjson).
    rewrite try_after_fetch, Hok. split; [reflexivity|].
    intros j r' Hj. cbn in Hj. apply lookup_insert_Some in Hj.
    destruct Hj as [[_ Heq]|[_ Hj]]; [|eauto].
    injection Heq as <-. eauto.
  - destruct (inflight c !! id) as [[|r]|] eqn:Hid; try discriminate.
    injection Hstep as <-. destruct (Hdec id r Hid) as [v Hjson].
    rewrite try_after_json, Hjson. split; [reflexivity|].
    intros j r' Hj. cbn in Hj. apply lookup_delete_Some in Hj.
    destruct Hj as [_ Hj]. eauto.
Qed.

(** While every answer is a failure, [data] stays as it is. *)
Lemma step_keeps_data (ev : event) (c c' : Controller) :
  step url options ev c = Some c' ->
  forallb fails (answers [ev]) = true ->
  bodies_break c ->
  data (hook (world c')) = data (hook (world c)) /\ bodies_break c'.
Proof.
  intros Hstep Hans Hbr. destruct ev as [|id p|id]; cbn [step] in Hstep.
  - injection Hstep as <-. split; [reflexivity|].
    intros j r Hj. cbn in Hj. apply lookup_insert_Some in Hj.
    destruct Hj as [[_ Heq]|[_ Hj]]; [discriminate | eauto].
  - destruct (inflight c !! id) as [[|r0]|]; try discriminate.
    injection Hstep as <-. cbn in Hans. rewrite andb_true_r in Hans.
    unfold fails, succeeds in Hans. rewrite try_after_fetch.
    assert (Hdel : forall e,
      data (hook (world (resume id c (handled e (world c)))))
      = data (hook (world c))
      /\ bodies_break (resume id c (handled e (world c)))).
    { intros e. rewrite world_resume, handled_data. split; [reflexivity|].
      intros j r' Hj. rewrite inflight_resume_handled in Hj.
      apply lookup_delete_Some in Hj. destruct Hj as [_ Hj]. eauto. }
    destruct p as [r|e]; [|apply Hdel]. cbn [outcome_of] in Hans.
    destruct (ok r); [|apply Hdel].
    destruct (json r) as [v|e] eqn:Hjson; [discriminate|].
    split; [reflexivity|].
    intros j r' Hj. cbn in Hj. apply lookup_insert_Some in Hj.
    destruct Hj as [[_ Heq]|[_ Hj]]; [|eauto].
    injection Heq as <-. eauto.
  - destruct (inflight c !! id) as [[|r]|] eqn:Hid; try discriminate.
    injection Hstep as <-. destruct (Hbr id r Hid) as [e Hjson].
    rewrite try_after_json, Hjson, world_resume, handled_data.
    split; [reflexivity|].
    intros j r' Hj. rewrite inflight_resume_handled in Hj.
    apply lookup_delete_Some in Hj. destruct Hj as [_ Hj]. eauto.
Qed.

Lemma answers_cons (ev : event) (evs : list event) :
  answers (ev :: evs) = (answers [ev] ++ answers evs)%list.
Proof. unfold answers. cbn [flat_map]. now rewrite app_nil_r. Qed.

Lemma run_keeps_error (evs : list event) (c c' : Controller) :
  run url options evs c = Some c' ->
  forallb succeeds (answers evs) = true ->
  bodies_decode c ->
  error (hook (world c')) = error (hook (world c)).
Proof.
  revert c. induction evs as [|ev evs IH]; intros c Hrun Hans Hdec;
    cbn [run] in Hrun.
  - now injection Hrun as <-.
  - destruct (step url options ev c) as [c1|] eqn:Hstep; [|discriminate].
    rewrite answers_cons, forallb_app in Hans.
    apply andb_prop in Hans as [Hev Hrest].
    destruct (step_keeps_error ev c c1 Hstep Hev Hdec) as [Herr Hdec1].
    rewrite <- Herr. now apply IH.
Qed.

Lemma run_keeps_data (evs : list event) (c c' : Controller) :
  run url options evs c = Some c' ->
  forallb fails (answers evs) = true ->
  bodies_break c ->
  data (hook (world c')) = data (hook (world c)).
Proof.
  revert c. induction evs as [|ev evs IH]; intros c Hrun Hans Hbr;
    cbn [run] in Hrun.
  - now injection Hrun as <-.
  - destruct (step url options ev c) as [c1|] eqn:Hstep; [|discriminate].
    rewrite answers_cons, forallb_app in Hans.
    apply andb_prop in Hans as [Hev Hrest].
    destruct (step_keeps_data ev c c1 Hstep Hev Hbr) as [Hdat Hbr1].
    rewrite <- Hdat. now apply IH.
Qed.

(** A whole attempt, with nothing in between. *)
Lemma run_attempt (c : Controller) (p : settled Response) :
  run url options (attempt c p) c
  = Some (completed (next_id c) (outcome_of p) (started url options c)).
Proof.
  unfold attempt. cbn [run]. rewrite step_Trigger.
  apply run_settle. simpl. apply lookup_insert_eq.
Qed.

Lemma exposed_attempt (c : Controller) (p : settled Response) :
  exposed url options (attempt c p) c
  = Some (hook (world (completed (next_id c) (outcome_of p)
                         (started url options c)))).
Proof. unfold exposed. now rewrite run_attempt. Qed.

End Runs.

(** * The claims *)

Section Claims.

Variable url : string.
Variable options : value.

(** C1 (as amended).  An attempt whose response is [ok] and whose body
    decodes to [v] ends with [data = v] and [loading = false], and it
    leaves [error] as it was before the attempt: the controller is
    Succeeded with a null [error] when no message was left there by an
    earlier failure. *)
Theorem success_sets_data_keeps_error
    (c : Controller) (r : Response) (v : value) :
  ok r = true ->
  json r = Resolved v ->
  exists h,
    exposed url options (attempt c (Resolved r)) c = Some h
    /\ data h = v
    /\ loading h = false
    /\ error h = error (hook (world c))
    /\ (error (hook (world c)) = VNull ->
        error h = VNull /\ status_of h = Succeeded).
Proof.
  intros Hok Hjson. eexists. split; [apply exposed_attempt|].
  cbn [outcome_of]. rewrite Hok, Hjson. cbn.
  split_and!; try reflexivity.
  intros Hnull. split; [assumption|].
  unfold status_of; cbn. now rewrite Hnull.
Qed.

(** C3.  A response with [ok] false ends the attempt in Failed with
    the fixed message, whatever its status code and status text. *)
Theorem not_ok_fixed_message (c : Controller) (r : Response) :
  ok r = false ->
  exists h,
    exposed url options (attempt c (Resolved r)) c = Some h
    /\ error h = VStr "Failed to fetch data"
    /\ loading h = false
    /\ status_of h = Failed.
Proof.
  intros Hok. eexists. split; [apply exposed_attempt|].
  cbn [outcome_of]. rewrite Hok. cbn. split_and!; reflexivity.
Qed.

(** C4 (as amended).  An exception raised by the request, by the status
    check or by the body decode, whose thrown value is not [null] or
    [undefined], is caught: the promise of [fetchData] does not reject,
    [loading] ends false and [error] holds the thrown value's [message]
    as it is; the attempt is Failed when that message is truthy.  No
    generic message stands in for a missing one. *)
Theorem exception_message_becomes_error
    (c : Controller) (p : settled Response) (e : value) :
  outcome_of p = Raised e ->
  nullish e = false ->
  exists c',
    run url options (attempt c p) c = Some c'
    /\ unhandled c' = unhandled c
    /\ loading (hook (world c')) = false
    /\ error (hook (world c')) = message e
    /\ (forall m, message e = VStr m -> error (hook (world c')) = VStr m)
    /\ (truthy (message e) = true -> status_of (hook (world c')) = Failed).
Proof.
  intros Hout Hnn. eexists. split; [apply run_attempt|].
  rewrite Hout. cbn [completed]. unfold handled. rewrite Hnn. cbn.
  split_and!; try reflexivity.
  - intros m Hm. exact Hm.
  - intros Ht. unfold status_of; cbn. now rewrite Ht.
Qed.

(** C5.  Whatever the transport answers, a completed attempt leaves
    [loading] false, and the consumer sees one of Succeeded and Failed,
    not Pending. *)
Theorem attempt_clears_loading (c : Controller) (p : settled Response) :
  exists h,
    exposed url options (attempt c p) c = Some h
    /\ loading h = false
    /\ status_of h <> Pending
    /\ (status_of h = Succeeded \/ status_of h = Failed)
    /\ ~ (status_of h = Succeeded /\ status_of h = Failed).
Proof.
  eexists. split; [apply exposed_attempt|].
  match goal with |- loading ?h = false /\ _ =>
    assert (Hl : loading h = false)
  end.
  { destruct (outcome_of p) as [v|e]; cbn [completed]; [reflexivity|].
    rewrite world_resume. apply handled_loading. }
  destruct (settled_status _ Hl) as [Hnp Hone].
  split_and!; [exact Hl | exact Hnp | exact Hone |].
  intros [H1 H2]. rewrite H1 in H2. discriminate.
Qed.

(** C7 (as amended).  A completed attempt prints its attempt-started
    line and then the line of its own outcome: succeeded-with-value
    when it succeeded, failed-with-message when it failed and the
    message could be read.  It never prints both. *)
Theorem attempt_log_lines (c : Controller) (p : settled Response) :
  exists c',
    run url options (attempt c p) c = Some c'
    /\ console (world c')
       = (console (world c) ++ started_line url :: closing_lines (outcome_of p))%list
    /\ length (closing_lines (outcome_of p)) <= 1.
Proof.
  eexists. split; [apply run_attempt|].
  destruct (outcome_of p) as [v|e]; cbn [completed closing_lines].
  - cbn. rewrite <- app_assoc. split; [reflexivity|lia].
  - rewrite world_resume. unfold handled.
    destruct (nullish e); cbn; rewrite <- ?app_assoc, ?app_nil_r;
      split; try reflexivity; lia.
Qed.

(** C9.  Two successful attempts in a row whose responses carry the same
    body end with the same [data]. *)
Theorem refetch_same_body_same_data
    (c : Controller) (r1 r2 : Response) (v : value) :
  ok r1 = true -> json r1 = Resolved v ->
  ok r2 = true -> json r2 = Resolved v ->
  exists c1 c2,
    run url options (attempt c (Resolved r1)) c = Some c1
    /\ run url options (attempt c1 (Resolved r2)) c1 = Some c2
    /\ data (hook (world c1)) = v
    /\ data (hook (world c2)) = data (hook (world c1)).
Proof.
  intros Hok1 Hjson1 Hok2 Hjson2. do 2 eexists.
  split; [apply run_attempt|]. split; [apply run_attempt|].
  cbn [outcome_of]. rewrite Hok1, Hjson1, Hok2, Hjson2. cbn. split; reflexivity.
Qed.

(** C10.  An attempt that ends in the [catch] branch leaves [data] as
    it was: of the three cells only [error] and [loading] can differ
    afterwards. *)
Theorem failure_keeps_data
    (c : Controller) (p : settled Response) (e : value) :
  outcome_of p = Raised e ->
  exists h,
    exposed url options (attempt c p) c = Some h
    /\ data h = data (hook (world c))
    /\ loading h = false.
Proof.
  intros Hout. eexists. split; [apply exposed_attempt|].
  rewrite Hout. cbn [completed]. rewrite world_resume.
  rewrite handled_data, handled_loading. split; reflexivity.
Qed.

(** C2 (as amended).  In a state reached from the fresh controller by
    any sequence of events, [data] and [error] are not both populated
    as long as the answers of the transport so far were all successes
    ([error] is still null) or all failures ([data] is still null). *)
Theorem unmixed_outcomes_one_populated (evs : list event) (c : Controller) :
  run url options evs fresh = Some c ->
  (forallb succeeds (answers evs) = true -> error (hook (world c)) = VNull)
  /\ (forallb fails (answers evs) = true -> data (hook (world c)) = VNull)
  /\ (forallb succeeds (answers evs) = true \/ forallb fails (answers evs) = true ->
      populated (data (hook (world c))) && populated (error (hook (world c)))
      = false).
Proof.
  intros Hrun.
  assert (Hs : forallb succeeds (answers evs) = true ->
               error (hook (world c)) = VNull).
  { intros Hall. rewrite (run_keeps_error url options evs fresh c Hrun Hall);
      [reflexivity|].
    intros id r Hid. cbn in Hid. now rewrite lookup_empty in Hid. }
  assert (Hf : forallb fails (answers evs) = true ->
               data (hook (world c)) = VNull).
  { intros Hall. rewrite (run_keeps_data url options evs fresh c Hrun Hall);
      [reflexivity|].
    intros id r Hid. cbn in Hid. now rewrite lookup_empty in Hid. }
  split_and!; [exact Hs | exact Hf |].
  intros [Hall|Hall].
  - rewrite (Hs Hall). apply andb_false_r.
  - now rewrite (Hf Hall).
Qed.

(** While the arguments of the hook stay the same, a call of [refetch]
    sets [loading] to true in the same turn, leaves the new attempt
    waiting for its [fetch], and hands [fetch] the url and options every
    earlier attempt got. *)
Lemma refetch_reenters_pending (evs : list event) (c : Controller) :
  run url options evs fresh = Some c ->
  exists c',
    step url options Trigger c = Some c'
    /\ loading (hook (world c')) = true
    /\ status_of (hook (world c')) = Pending
    /\ inflight c' !! next_id c = Some AwaitFetch
    /\ requests (world c') = (requests (world c) ++ [mkRequest url options])%list
    /\ Forall (eq (mkRequest url options)) (requests (world c')).
Proof.
  intros Hrun. eexists. split; [apply step_Trigger|].
  split_and!; try reflexivity.
  - cbn. apply lookup_insert_eq.
  - eapply step_requests; [apply step_Trigger|].
    eapply run_requests; [exact Hrun|]. constructor.
Qed.

(** C8 (as amended).  A starts, B starts before A settles, B completes,
    then A completes.  A's completion decides [loading] and the one
    cell it writes: [data] when A succeeded, [error] when A failed.
    The other cell is what B's completion left there. *)
Theorem last_completion_writes_its_cell
    (c : Controller) (pA pB : settled Response) :
  exists hB h,
    exposed url options (overlap c pB) c = Some hB
    /\ exposed url options (race c pA pB) c = Some h
    /\ loading h = false
    /\ match outcome_of pA with
       | Returned v => data h = v /\ error h = error hB
       | Raised e =>
           data h = data hB
           /\ error h = if nullish e then error hB else message e
       end.
Proof.
  set (n := next_id c).
  set (c2 := started url options (started url options c)).
  assert (HB : run url options (overlap c pB) c
               = Some (completed (S n) (outcome_of pB) c2)).
  { unfold overlap. cbn [run]. rewrite !step_Trigger.
    apply run_settle. cbn. apply lookup_insert_eq. }
  assert (HA : run url options (race c pA pB) c
               = Some (completed n (outcome_of pA)
                         (completed (S n) (outcome_of pB) c2))).
  { unfold race. rewrite run_app, HB. cbn [mbind option_bind].
    apply run_settle. rewrite inflight_completed.
    rewrite lookup_delete_ne by lia. cbn.
    rewrite lookup_insert_ne by lia. apply lookup_insert_eq. }
  do 2 eexists. unfold exposed. rewrite HB, HA. cbn [fmap option_fmap option_map].
  split; [reflexivity|]. split; [reflexivity|].
  destruct (outcome_of pA) as [v|e]; cbn [completed].
  - cbn. split_and!; reflexivity.
  - rewrite world_resume. unfold handled.
    destruct (nullish e); cbn; split_and!; reflexivity.
Qed.

End Claims.

Lemma success_sets_data_keeps_error_witness :
  ok ok_response = true
  /\ json ok_response = Resolved two_users
  /\ exists h,
      exposed users_url default_options (attempt fresh (Resolved ok_response)) fresh
      = Some h
      /\ data h = two_users
      /\ loading h = false
      /\ error h = error (hook (world fresh))
      /\ (error (hook (world fresh)) = VNull ->
          error h = VNull /\ status_of h = Succeeded).
Proof.
  split; [reflexivity|]. split; [reflexivity|].
  apply (success_sets_data_keeps_error users_url default_options
           fresh ok_response two_users); reflexivity.
Defined.

Lemma not_ok_fixed_message_witness :
  ok server_error = false
  /\ exists h,
      exposed users_url default_options (attempt fresh (Resolved server_error)) fresh
      = Some h
      /\ error h = VStr "Failed to fetch data"
      /\ loading h = false
      /\ status_of h = Failed.
Proof.
  split; [reflexivity|].
  apply (not_ok_fixed_message users_url default_options fresh server_error);
    reflexivity.
Defined.

(** C1, counterexample.  The mount attempt gets a 500; the refetch gets
    the two users.  The refetch succeeded, and [error] still holds the
    message of the first attempt. *)
Lemma success_after_failure_keeps_message :
  exists h,
    exposed users_url default_options
      [Trigger; FetchSettles 0 (Resolved server_error);
       Trigger; FetchSettles 1 (Resolved ok_response); JsonSettles 1] fresh
    = Some h
    /\ data h = two_users
    /\ loading h = false
    /\ error h = VStr "Failed to fetch data"
    /\ error h <> VNull
    /\ status_of h = Failed.
Proof.
  eexists. split; [vm_compute; reflexivity|].
  cbn. split_and!; try reflexivity. discriminate.
Qed.

Lemma exception_message_becomes_error_witness :
  outcome_of (Resolved broken_body)
  = Raised (new_Error "Unexpected token < in JSON at position 0")
  /\ nullish (new_Error "Unexpected token < in JSON at position 0") = false
  /\ exists c',
      run users_url default_options (attempt fresh (Resolved broken_body)) fresh
      = Some c'
      /\ unhandled c' = unhandled fresh
      /\ loading (hook (world c')) = false
      /\ error (hook (world c'))
         = message (new_Error "Unexpected token < in JSON at position 0")
      /\ (forall m,
            message (new_Error "Unexpected token < in JSON at position 0") = VStr m ->
            error (hook (world c')) = VStr m)
      /\ (truthy (message (new_Error "Unexpected token < in JSON at position 0"))
          = true ->
          status_of (hook (world c')) = Failed).
Proof.
  split; [reflexivity|]. split; [reflexivity|].
  apply (exception_message_becomes_error users_url default_options fresh
           (Resolved broken_body)
           (new_Error "Unexpected token < in JSON at position 0"));
    reflexivity.
Defined.

(** C4, counterexample.  The request is aborted with a string as its
    reason, so [fetch] rejects with that string.  A string has no
    [message]: [error] becomes [undefined], no generic message is stored,
    and the consumer does not see a failure. *)
Lemma thrown_string_leaves_no_message :
  exists h,
    exposed users_url default_options
      (attempt fresh (Rejected (VStr "cancelled"))) fresh
    = Some h
    /\ error h = VUndefined
    /\ (forall m, error h <> VStr m)
    /\ status_of h <> Failed.
Proof.
  eexists. split; [vm_compute; reflexivity|].
  cbn. split_and!; [reflexivity | intros m; discriminate | discriminate].
Qed.

(** A thrown [null] is not contained: reading its [message] in the
    handler throws, and the promise of [fetchData] rejects. *)
Example thrown_null_escapes :
  exists c',
    run users_url default_options (attempt fresh (Rejected VNull)) fresh = Some c'
    /\ unhandled c' = [new_TypeError "message"]
    /\ hook (world c') = {| data := VNull; loading := false; error := VNull |}.
Proof. eexists. split; [vm_compute; reflexivity|]. split; reflexivity. Qed.

(** C7, counterexample.  A successful attempt prints two lines, and none
    of them is the failed-with-message line. *)
Lemma successful_attempt_prints_two_lines :
  exists c',
    run users_url default_options (attempt fresh (Resolved ok_response)) fresh
    = Some c'
    /\ console (world c') = [started_line users_url; succeeded_line two_users]
    /\ length (console (world c')) <> 3
    /\ Forall (fun l => tint l <> Red) (console (world c')).
Proof.
  eexists. split; [vm_compute; reflexivity|].
  cbn. split_and!; [reflexivity | discriminate |].
  repeat constructor; discriminate.
Qed.

Lemma refetch_same_body_same_data_witness :
  ok ok_response = true
  /\ json ok_response = Resolved two_users
  /\ exists c1 c2,
      run users_url default_options (attempt fresh (Resolved ok_response)) fresh
      = Some c1
      /\ run users_url default_options (attempt c1 (Resolved ok_response)) c1
         = Some c2
      /\ data (hook (world c1)) = two_users
      /\ data (hook (world c2)) = data (hook (world c1)).
Proof.
  split; [reflexivity|]. split; [reflexivity|].
  apply (refetch_same_body_same_data users_url default_options fresh
           ok_response ok_response two_users); reflexivity.
Defined.

Lemma failure_keeps_data_witness :
  outcome_of (Resolved server_error) = Raised (new_Error "Failed to fetch data")
  /\ exists h,
      exposed users_url default_options
        (attempt fresh (Resolved server_error)) fresh = Some h
      /\ data h = data (hook (world fresh))
      /\ loading h = false.
Proof.
  split; [reflexivity|].
  apply (failure_keeps_data users_url default_options fresh
           (Resolved server_error) (new_Error "Failed to fetch data"));
    reflexivity.
Defined.

(** C2, counterexample.  The mount attempt loads the two users; the
    refetch gets a body that does not decode.  Both [data] and [error]
    are populated afterwards. *)
Lemma failure_after_success_populates_both :
  exists h,
    exposed users_url default_options
      [Trigger; FetchSettles 0 (Resolved ok_response); JsonSettles 0;
       Trigger; FetchSettles 1 (Resolved broken_body); JsonSettles 1] fresh
    = Some h
    /\ data h = two_users
    /\ error h = VStr "Unexpected token < in JSON at position 0"
    /\ data h <> VNull
    /\ error h <> VNull
    /\ populated (data h) && populated (error h) = true.
Proof.
  eexists. split; [vm_compute; reflexivity|].
  cbn. split_and!; try reflexivity; discriminate.
Qed.

Lemma unmixed_outcomes_one_populated_witness :
  exists c,
    run users_url default_options
      [Trigger; FetchSettles 0 (Resolved ok_response); Trigger; JsonSettles 0]
      fresh = Some c
    /\ (forallb succeeds
          (answers [Trigger; FetchSettles 0 (Resolved ok_response); Trigger;
                    JsonSettles 0]) = true ->
        error (hook (world c)) = VNull)
    /\ (forallb fails
          (answers [Trigger; FetchSettles 0 (Resolved ok_response); Trigger;
                    JsonSettles 0]) = true ->
        data (hook (world c)) = VNull)
    /\ (forallb succeeds
          (answers [Trigger; FetchSettles 0 (Resolved ok_response); Trigger;
                    JsonSettles 0]) = true
        \/ forallb fails
             (answers [Trigger; FetchSettles 0 (Resolved ok_response); Trigger;
                       JsonSettles 0]) = true ->
        populated (data (hook (world c))) && populated (error (hook (world c)))
        = false).
Proof.
  eexists. split; [vm_compute; reflexivity|].
  apply (unmixed_outcomes_one_populated users_url default_options
           [Trigger; FetchSettles 0 (Resolved ok_response); Trigger; JsonSettles 0]).
  vm_compute; reflexivity.
Defined.

Lemma refetch_reenters_pending_witness :
  exists c,
    run users_url default_options
      [Trigger; FetchSettles 0 (Resolved server_error)] fresh = Some c
    /\ exists c',
        step users_url default_options Trigger c = Some c'
        /\ loading (hook (world c')) = true
        /\ status_of (hook (world c')) = Pending
        /\ inflight c' !! next_id c = Some AwaitFetch
        /\ requests (world c')
           = (requests (world c) ++ [mkRequest users_url default_options])%list
        /\ Forall (eq (mkRequest users_url default_options)) (requests (world c')).
Proof.
  eexists. split; [vm_compute; reflexivity|].
  apply (refetch_reenters_pending users_url default_options
           [Trigger; FetchSettles 0 (Resolved server_error)]).
  vm_compute; reflexivity.
Defined.

(** C8, counterexample.  A (the mount attempt) gets a 500, B (a refetch
    started before A settled) gets the two users, and B completes first.
    A completes last, and [data] is B's payload, not the null that A's
    outcome alone leaves. *)
Lemma race_keeps_data_of_earlier_completion :
  exists h hA,
    exposed users_url default_options
      (race fresh (Resolved server_error) (Resolved ok_response)) fresh = Some h
    /\ exposed users_url default_options
         (attempt fresh (Resolved server_error)) fresh = Some hA
    /\ data hA = VNull
    /\ data h = two_users
    /\ error h = VStr "Failed to fetch data"
    /\ data h <> data hA
    /\ h <> hA.
Proof.
  do 2 eexists. split; [vm_compute; reflexivity|].
  split; [vm_compute; reflexivity|].
  cbn. split_and!; try reflexivity; discriminate.
Qed.

(** The value loaded by an earlier attempt is still exposed after a
    later failure. *)
Example data_survives_later_failure :
  exposed users_url default_options
    [Trigger; FetchSettles 0 (Resolved ok_response); JsonSettles 0;
     Trigger; FetchSettles 1 (Rejected (new_Error "Failed to fetch"))] fresh
  = Some {| data := two_users; loading := false;
            error := VStr "Failed to fetch" |}.
Proof. vm_compute; reflexivity. Qed.

(** * The consumers *)

Lemma get_property_read (v : value) (prop : string) (w : World) :
  get_property v prop w = (read v prop, w).
Proof. destruct v; reflexivity. Qed.

Lemma read_member (v : value) (prop : string) :
  nullish v = false -> read v prop = Normal (member prop v).
Proof. destruct v; simpl; intros H; try discriminate H; reflexivity. Qed.

Lemma read_nullish (v : value) (prop : string) :
  nullish v = true -> read v prop = Throw (new_TypeError prop).
Proof. destruct v; simpl; intros H; try discriminate H; reflexivity. Qed.

Lemma message_nullish (e : value) :
  nullish e = true -> message e = VUndefined.
Proof. destruct e; simpl; intros H; try discriminate H; reflexivity. Qed.

Lemma list_entry_ok (shown : string) (item : value) :
  nullish item = false -> list_entry shown item = Normal (entry_of shown item).
Proof.
  intros Hn. unfold list_entry. now rewrite !(read_member _ _ Hn).
Qed.

Lemma map_elements_ok (shown : string) (items : list value) :
  forallb (fun x => negb (nullish x)) items = true ->
  map_elements (list_entry shown) items = Normal (map (entry_of shown) items).
Proof.
  induction items as [|x items IH]; cbn [forallb map_elements map];
    [reflexivity|].
  intros Hall. apply andb_prop in Hall as [Hx Hrest].
  apply negb_true_iff in Hx.
  rewrite (list_entry_ok _ _ Hx). cbn [and_then].
  now rewrite (IH Hrest).
Qed.

Lemma map_elements_nullish (shown : string) (items : list value) :
  existsb nullish items = true ->
  map_elements (list_entry shown) items = Throw (new_TypeError "id").
Proof.
  induction items as [|x items IH]; cbn [existsb map_elements];
    [discriminate|].
  intros Hex. destruct (nullish x) eqn:Hx.
  - unfold list_entry. now rewrite (read_nullish _ _ Hx).
  - rewrite (list_entry_ok _ _ Hx). cbn [and_then].
    cbn [orb] in Hex. now rewrite (IH Hex).
Qed.

Lemma array_map_not_array (callee : string) (cb : value -> completion element)
    (v : value) :
  is_array v = false ->
  array_map callee cb v
  = Throw (if nullish v then new_TypeError "map" else not_a_function callee).
Proof. destruct v; simpl; intros H; try discriminate H; reflexivity. Qed.

(** X1.  When the hook reports an array of items, none of them null or
    undefined, with [loading] false and no truthy [error], [Users]
    renders the heading, the refresh button and one [li] per item, in
    the order of the array, keyed by the item's [id] and showing its
    [name]. *)
Theorem Users_lists_every_item (h : HookState) (items : list value) :
  loading h = false ->
  truthy (error h) = false ->
  data h = VArr items ->
  forallb (fun x => negb (nullish x)) items = true ->
  Users h
  = Normal (Tag "div" (class "container")
              [Tag "h2" plain [Text "Users"];
               Tag "button" (clicks Refetch) [Text "Refresh Posts"];
               Tag "ul" plain (map (entry_of "name") items)]).
Proof.
  intros Hl He Hd Hitems. unfold Users. rewrite Hl, He, Hd.
  cbn [array_map]. now rewrite (map_elements_ok _ _ Hitems).
Qed.

(** X2.  [Posts] renders one [li] per item of the array, in order, keyed
    by [id] and showing [title]. *)
Theorem Posts_lists_every_item (h : HookState) (items : list value) :
  loading h = false ->
  truthy (error h) = false ->
  data h = VArr items ->
  forallb (fun x => negb (nullish x)) items = true ->
  Posts h
  = Normal (Tag "div" (class "container")
              [Tag "h2" plain [Text "Posts"];
               Tag "button" (clicks Refetch) [Text "Refresh Posts"];
               Tag "ul" plain (map (entry_of "title") items)]).
Proof.
  intros Hl He Hd Hitems. unfold Posts. rewrite Hl, He, Hd.
  cbn [array_map]. now rewrite (map_elements_ok _ _ Hitems).
Qed.

(** X3.  When [loading] is false and [error] is not truthy, a [data]
    that is not an array makes both consumers throw while rendering:
    reading [map] of null or undefined, or calling a [map] that is not
    there. *)
Theorem render_throws_without_array (h : HookState) :
  loading h = false ->
  truthy (error h) = false ->
  is_array (data h) = false ->
  Users h
  = Throw (if nullish (data h) then new_TypeError "map"
           else not_a_function "data.map")
  /\ Posts h = Users h.
Proof.
  intros Hl He Hd. unfold Users, Posts. rewrite Hl, He.
  rewrite !(array_map_not_array _ _ _ Hd). split; reflexivity.
Qed.

(** X4.  An array with a null or undefined item makes the consumers
    throw while rendering, whatever the other items are: a [TypeError]
    from reading a property of that item, its [id] or the field the
    consumer shows. *)
Theorem render_throws_on_null_item (h : HookState) (items : list value) :
  loading h = false ->
  truthy (error h) = false ->
  data h = VArr items ->
  existsb nullish items = true ->
  (exists prop, (prop = "id" \/ prop = "name")
                /\ Users h = Throw (new_TypeError prop))
  /\ (exists prop, (prop = "id" \/ prop = "title")
                   /\ Posts h = Throw (new_TypeError prop)).
Proof.
  intros Hl He Hd Hex. unfold Users, Posts. rewrite Hl, He, Hd.
  cbn [array_map]. rewrite !(map_elements_nullish _ _ Hex).
  split; exists "id"; (split; [now left | reflexivity]).
Qed.

Section Screens.

Variable url : string.
Variable options : value.

(** X5.  The mount attempt of a freshly mounted hook, answered by an
    [ok] response whose body decodes to an array of items, ends with
    [Users] showing one entry per item, in order. *)
Theorem mount_success_renders_list
    (r : Response) (items : list value) :
  ok r = true ->
  json r = Resolved (VArr items) ->
  forallb (fun x => negb (nullish x)) items = true ->
  exists h,
    exposed url options (attempt fresh (Resolved r)) fresh = Some h
    /\ Users h
       = Normal (Tag "div" (class "container")
                   [Tag "h2" plain [Text "Users"];
                    Tag "button" (clicks Refetch) [Text "Refresh Posts"];
                    Tag "ul" plain (map (entry_of "name") items)]).
Proof.
  intros Hok Hjson Hitems. eexists. split; [apply exposed_attempt|].
  cbn [outcome_of]. rewrite Hok, Hjson. cbn [completed world hook].
  unfold Users. cbn [loading error data started world hook fresh initial_state truthy].
  cbn [array_map]. now rewrite (map_elements_ok _ _ Hitems).
Qed.

(** X6.  A mount attempt that fails without a truthy message (the thrown
    value is null, has no [message], or has an empty one) leaves nothing
    for the consumer to branch on: [loading] is false, [error] is not
    truthy, [data] is still null, and [Users] throws while rendering. *)
Theorem silent_failure_crashes_Users (p : settled Response) (e : value) :
  outcome_of p = Raised e ->
  truthy (message e) = false ->
  exists h,
    exposed url options (attempt fresh p) fresh = Some h
    /\ status_of h = Succeeded
    /\ data h = VNull
    /\ Users h = Throw (new_TypeError "map").
Proof.
  intros Hout Hmsg. eexists. split; [apply exposed_attempt|].
  rewrite Hout. cbn [completed]. rewrite world_resume. unfold handled.
  destruct (nullish e); cbn [snd hook]; unfold status_of, Users;
    cbn [loading error data started world hook fresh initial_state];
    rewrite ?Hmsg; cbn; split_and!; reflexivity.
Qed.

(** X7.  After an attempt that failed with a truthy message the consumer
    shows that message and nothing to click: the refresh button is not
    rendered, so the user has no way to retry. *)
Theorem no_retry_after_failure
    (c : Controller) (p : settled Response) (e : value) :
  outcome_of p = Raised e ->
  truthy (message e) = true ->
  exists h,
    exposed url options (attempt c p) c = Some h
    /\ Users h = Normal (Tag "p" (class "error") [Text "Error: "; Expr (message e)])
    /\ forall el, Users h = Normal el -> handlers el = [].
Proof.
  intros Hout Hmsg.
  assert (Hnn : nullish e = false).
  { destruct (nullish e) eqn:Hn; [|reflexivity].
    rewrite (message_nullish _ Hn) in Hmsg. discriminate. }
  eexists. split; [apply exposed_attempt|].
  rewrite Hout. cbn [completed]. rewrite world_resume. unfold handled.
  rewrite Hnn. cbn [snd hook]. unfold Users. cbn [loading error]. rewrite Hmsg.
  split; [reflexivity|]. intros el Hel. injection Hel as <-. reflexivity.
Qed.

(** X8.  Once a truthy [error] is stored, successful attempts do not
    bring the list back: after any sequence of events whose answers are
    all successes, whenever [loading] is false [Users] still shows the
    old message, whatever [data] holds by then. *)
Theorem error_view_survives_successes
    (evs : list event) (c c' : Controller) :
  run url options evs c = Some c' ->
  forallb succeeds (answers evs) = true ->
  bodies_decode c ->
  truthy (error (hook (world c))) = true ->
  loading (hook (world c')) = false ->
  Users (hook (world c'))
  = Normal (Tag "p" (class "error")
              [Text "Error: "; Expr (error (hook (world c)))]).
Proof.
  intros Hrun Hall Hdec Herr Hl.
  pose proof (run_keeps_error url options evs c c' Hrun Hall Hdec) as Hkeep.
  unfold Users. now rewrite Hl, Hkeep, Herr.
Qed.

(** A call of [fetchData] replaces whatever the consumer showed by the
    loading paragraph, which offers nothing to click. *)
Lemma refresh_hides_list (c : Controller) :
  exists c',
    step url options Trigger c = Some c'
    /\ Users (hook (world c'))
       = Normal (Tag "p" (class "loading") [Text "Loading users..."])
    /\ Posts (hook (world c'))
       = Normal (Tag "p" (class "loading") [Text "Loading posts..."])
    /\ (forall el, Users (hook (world c')) = Normal el -> handlers el = []).
Proof.
  eexists. split; [apply step_Trigger|]. split_and!; try reflexivity.
  intros el Hel. cbn in Hel. injection Hel as <-. reflexivity.
Qed.

End Screens.

(** * Invariants of the runs *)

Section Invariants.

Variable url : string.
Variable options : value.

Lemma loading_completed (id : nat) (o : outcome) (c : Controller) :
  loading (hook (world (completed id o c))) = false.
Proof.
  destruct o; cbn [completed]; [reflexivity|].
  rewrite world_resume. apply handled_loading.
Qed.

Lemma step_counts (ev : event) (c c' : Controller) :
  step url options ev c = Some c' ->
  length (requests (world c')) = length (requests (world c)) + triggers [ev]
  /\ next_id c' = next_id c + triggers [ev].
Proof.
  intros Hstep. destruct ev as [|id p|id]; cbn [step] in Hstep.
  - injection Hstep as <-. cbn. rewrite length_app. cbn. lia.
  - destruct (inflight c !! id) as [[|r]|]; try discriminate.
    injection Hstep as <-. rewrite world_resume, try_after_fetch.
    destruct p as [r|e]; [destruct (ok r)|]; rewrite ?handled_requests;
      cbn [snd triggers];
      (split; [lia|]); try (unfold handled; destruct (nullish _));
      cbn; lia.
  - destruct (inflight c !! id) as [[|r]|]; try discriminate.
    injection Hstep as <-. rewrite world_resume, try_after_json.
    destruct (json r) as [v|e]; rewrite ?handled_requests;
      cbn [snd triggers requests];
      (split; [lia|]); try (unfold handled; destruct (nullish _));
      cbn; lia.
Qed.

Lemma triggers_cons (ev : event) (evs : list event) :
  triggers (ev :: evs) = triggers [ev] + triggers evs.
Proof. destruct ev; cbn; lia. Qed.

(** X10.  The hook issues one request per call of [fetchData] and none
    otherwise: no answer of the transport, failed or not, makes it send
    another request. *)
Theorem one_request_per_call (evs : list event) (c c' : Controller) :
  run url options evs c = Some c' ->
  length (requests (world c')) = length (requests (world c)) + triggers evs
  /\ next_id c' = next_id c + triggers evs.
Proof.
  revert c. induction evs as [|ev evs IH]; intros c Hrun; cbn [run] in Hrun.
  - injection Hrun as <-. cbn. lia.
  - destruct (step url options ev c) as [c1|] eqn:Hstep; [|discriminate].
    destruct (step_counts ev c c1 Hstep) as [Hreq Hid].
    destruct (IH c1 Hrun) as [Hreq' Hid'].
    rewrite triggers_cons. lia.
Qed.

Lemma step_loading_in_flight (ev : event) (c c' : Controller) :
  step url options ev c = Some c' ->
  loading (hook (world c')) = true -> inflight c' <> ∅.
Proof.
  intros Hstep. destruct ev as [|id p|id]; cbn [step] in Hstep.
  - injection Hstep as <-. intros _. apply insert_non_empty.
  - destruct (inflight c !! id) as [[|r]|]; try discriminate.
    injection Hstep as <-. rewrite try_after_fetch.
    destruct p as [r|e]; [destruct (ok r)|];
      try (rewrite world_resume, handled_loading; discriminate).
    intros _. apply insert_non_empty.
  - destruct (inflight c !! id) as [[|r]|]; try discriminate.
    injection Hstep as <-. rewrite world_resume, try_after_json.
    destruct (json r) as [v|e]; [cbn; discriminate|].
    rewrite handled_loading. discriminate.
Qed.

(** X11.  After at least one event, [loading] is true only while some
    attempt is in flight: the hook never leaves the consumer waiting for
    nothing. *)
Theorem loading_means_in_flight (evs : list event) (c c' : Controller) :
  evs <> [] ->
  run url options evs c = Some c' ->
  loading (hook (world c')) = true ->
  exists id st, inflight c' !! id = Some st.
Proof.
  intros Hne Hrun Hl. apply map_choose.
  revert c Hne Hrun. induction evs as [|ev evs IH]; intros c Hne Hrun;
    [contradiction|].
  cbn [run] in Hrun.
  destruct (step url options ev c) as [c1|] eqn:Hstep; [|discriminate].
  destruct evs as [|ev' evs].
  - injection Hrun as <-. eapply step_loading_in_flight; eassumption.
  - eapply IH; [discriminate | exact Hrun].
Qed.

(** X12.  The converse fails by design: when two attempts overlap, the
    completion of the first clears [loading] although the second is
    still waiting for its [fetch]. *)
Theorem loading_cleared_while_in_flight
    (c : Controller) (pA : settled Response) :
  exists c',
    run url options (Trigger :: Trigger :: settle (next_id c) pA) c = Some c'
    /\ loading (hook (world c')) = false
    /\ status_of (hook (world c')) <> Pending
    /\ inflight c' !! S (next_id c) = Some AwaitFetch.
Proof.
  eexists. split.
  { cbn [run]. rewrite !step_Trigger. apply run_settle. cbn.
    rewrite lookup_insert_ne by lia. apply lookup_insert_eq. }
  pose proof (loading_completed (next_id c) (outcome_of pA)
                (started url options (started url options c))) as Hl.
  split; [exact Hl|]. split; [apply settled_status, Hl|].
  rewrite inflight_completed. rewrite lookup_delete_ne by lia.
  cbn. apply lookup_insert_eq.
Qed.

Lemma step_contained (ev : event) (c c' : Controller) :
  step url options ev c = Some c' ->
  forallb contained (answers [ev]) = true ->
  bodies_contained c ->
  unhandled c' = unhandled c /\ bodies_contained c'.
Proof.
  intros Hstep Hans Hb.
  assert (Hdel : forall id e, nullish e = false ->
    unhandled (resume id c (handled e (world c))) = unhandled c
    /\ bodies_contained (resume id c (handled e (world c)))).
  { intros id e Hn. split; [unfold handled; now rewrite Hn|].
    intros j r' e' Hj. rewrite inflight_resume_handled in Hj.
    apply lookup_delete_Some in Hj as [_ Hj]. eauto. }
  destruct ev as [|id p|id]; cbn [step] in Hstep.
  - injection Hstep as <-. split; [reflexivity|].
    intros j r e Hj. cbn in Hj. apply lookup_insert_Some in Hj.
    destruct Hj as [[_ Heq]|[_ Hj]]; [discriminate | eauto].
  - destruct (inflight c !! id) as [[|r0]|]; try discriminate.
    injection Hstep as <-. cbn in Hans. rewrite andb_true_r in Hans.
    unfold contained in Hans. rewrite try_after_fetch.
    destruct p as [r|e]; cbn [outcome_of] in Hans.
    + destruct (ok r); [|now apply Hdel].
      split; [reflexivity|].
      intros j r' e' Hj Hjson. cbn in Hj. apply lookup_insert_Some in Hj.
      destruct Hj as [[_ Heq]|[_ Hj]]; [|eauto].
      injection Heq as <-. rewrite Hjson in Hans.
      now apply negb_true_iff in Hans.
    + apply Hdel. now apply negb_true_iff in Hans.
  - destruct (inflight c !! id) as [[|r]|] eqn:Hid; try discriminate.
    injection Hstep as <-. rewrite try_after_json.
    destruct (json r) as [v|e] eqn:Hjson; [|apply Hdel; eauto].
    split; [reflexivity|].
    intros j r' e' Hj. cbn in Hj.
    apply lookup_delete_Some in Hj as [_ Hj]. eauto.
Qed.

Lemma run_contained (evs : list event) (c c' : Controller) :
  run url options evs c = Some c' ->
  forallb contained (answers evs) = true ->
  bodies_contained c ->
  unhandled c' = unhandled c.
Proof.
  revert c. induction evs as [|ev evs IH]; intros c Hrun Hans Hb;
    cbn [run] in Hrun.
  - now injection Hrun as <-.
  - destruct (step url options ev c) as [c1|] eqn:Hstep; [|discriminate].
    rewrite answers_cons, forallb_app in Hans.
    apply andb_prop in Hans as [Hev Hrest].
    destruct (step_contained ev c c1 Hstep Hev Hb) as [Hun Hb1].
    rewrite <- Hun. now apply IH.
Qed.

(** X13.  As long as the transport never rejects with [null] or
    [undefined], no failure escapes the hook: in every state reached
    from the fresh controller, under any interleaving of attempts, no
    promise of [fetchData] has rejected. *)
Theorem failures_stay_inside (evs : list event) (c : Controller) :
  run url options evs fresh = Some c ->
  forallb contained (answers evs) = true ->
  unhandled c = [].
Proof.
  intros Hrun Hall.
  rewrite (run_contained evs fresh c Hrun Hall); [reflexivity|].
  intros id r e Hid. cbn in Hid. now rewrite lookup_empty in Hid.
Qed.

Lemma step_data_from_responses
    (d0 : value) (seen : list (settled Response))
    (ev : event) (c c' : Controller) :
  step url options ev c = Some c' ->
  data_from_responses d0 seen c ->
  data_from_responses d0 (seen ++ answers [ev]) c'.
Proof.
  intros Hstep [Hdata Hfl].
  assert (Hmono : forall r, In (Resolved r) seen ->
                            In (Resolved r) (seen ++ answers [ev])).
  { intros r Hr. apply in_or_app. now left. }
  assert (Hdata' : data (hook (world c)) = d0
     \/ exists r, In (Resolved r) (seen ++ answers [ev]) /\ ok r = true
                  /\ json r = Resolved (data (hook (world c)))).
  { destruct Hdata as [Hd|(r & Hr & Hok & Hj)]; [now left|].
    right. exists r. auto. }
  assert (Hdel : forall id e,
    data_from_responses d0 (seen ++ answers [ev])
      (resume id c (handled e (world c)))).
  { intros id e. split.
    - rewrite world_resume, handled_data. exact Hdata'.
    - intros j r' Hj. rewrite inflight_resume_handled in Hj.
      apply lookup_delete_Some in Hj as [_ Hj].
      destruct (Hfl j r' Hj). auto. }
  destruct ev as [|id p|id]; cbn [step] in Hstep.
  - injection Hstep as <-. split; [exact Hdata'|].
    intros j r Hj. cbn in Hj. apply lookup_insert_Some in Hj.
    destruct Hj as [[_ Heq]|[_ Hj]]; [discriminate|].
    destruct (Hfl j r Hj). auto.
  - destruct (inflight c !! id) as [[|r0]|]; try discriminate.
    injection Hstep as <-. rewrite try_after_fetch.
    destruct p as [r|e]; [|apply Hdel].
    destruct (ok r) eqn:Hok; [|apply Hdel].
    split; [exact Hdata'|].
    intros j r' Hj. cbn in Hj. apply lookup_insert_Some in Hj.
    destruct Hj as [[_ Heq]|[_ Hj]].
    + injection Heq as <-. split; [|exact Hok].
      apply in_or_app. right. cbn. now left.
    + destruct (Hfl j r' Hj). auto.
  - destruct (inflight c !! id) as [[|r]|] eqn:Hid; try discriminate.
    injection Hstep as <-. rewrite try_after_json.
    destruct (json r) as [v|e] eqn:Hjson; [|apply Hdel].
    destruct (Hfl id r Hid) as [Hseen Hok]. split.
    + right. exists r. cbn. auto.
    + intros j r' Hj. cbn in Hj.
      apply lookup_delete_Some in Hj as [_ Hj].
      destruct (Hfl j r' Hj). auto.
Qed.

Lemma run_data_from_responses
    (d0 : value) (evs : list event) (seen : list (settled Response))
    (c c' : Controller) :
  run url options evs c = Some c' ->
  data_from_responses d0 seen c ->
  data_from_responses d0 (seen ++ answers evs) c'.
Proof.
  revert seen c. induction evs as [|ev evs IH]; intros seen c Hrun Hinv;
    cbn [run] in Hrun.
  - injection Hrun as <-. cbn. now rewrite app_nil_r.
  - destruct (step url options ev c) as [c1|] eqn:Hstep; [|discriminate].
    rewrite answers_cons, app_assoc. eapply IH; [exact Hrun|].
    eapply step_data_from_responses; eassumption.
Qed.

(** X14.  Whatever the interleaving, [data] is null or the decoded body
    of a response the transport answered with [ok]: the body of a
    response that is not [ok] is never exposed as [data]. *)
Theorem data_comes_from_an_ok_response (evs : list event) (c : Controller) :
  run url options evs fresh = Some c ->
  data (hook (world c)) = VNull
  \/ exists r, In (Resolved r) (answers evs) /\ ok r = true
               /\ json r = Resolved (data (hook (world c))).
Proof.
  intros Hrun.
  destruct (run_data_from_responses VNull evs [] fresh c Hrun) as [Hdata _].
  - split; [now left|].
    intros id r Hid. cbn in Hid. now rewrite lookup_empty in Hid.
  - exact Hdata.
Qed.

End Invariants.

(** * The hook across renders *)

Lemma react_run_Loop (url : string) (options : value)
    (evs : list event) (c : Controller) :
  react_run (map Loop evs) (mkInstance url options c)
  = mkInstance url options <$> run url options evs c.
Proof.
  revert c. induction evs as [|ev evs IH]; intros c; [reflexivity|].
  cbn [map react_run react_step run current_url current_options controller].
  destruct (step url options ev c) as [c1|]; [apply IH | reflexivity].
Qed.

Lemma mount_started (url : string) (options : value) :
  mount url options = Some (mkInstance url options (started url options fresh)).
Proof. unfold mount. now rewrite step_Trigger. Qed.

Lemma react_step_last_render (ev : react_event) (i i' : Instance) :
  react_step ev i = Some i' ->
  (current_url i', current_options i')
  = last_render (current_url i) (current_options i) [ev].
Proof.
  destruct ev as [url options|ev]; cbn [react_step last_render].
  - destruct (String.eqb url (current_url i)).
    + now intros [= <-].
    + rewrite step_Trigger. now intros [= <-].
  - destruct (step (current_url i) (current_options i) ev (controller i));
      [|discriminate].
    now intros [= <-].
Qed.

Lemma last_render_cons (url : string) (options : value)
    (ev : react_event) (evs : list react_event) :
  last_render url options (ev :: evs)
  = last_render (fst (last_render url options [ev]))
                (snd (last_render url options [ev])) evs.
Proof. destruct ev; reflexivity. Qed.

(** The [refetch] of an instance closes over the arguments of the last
    render. *)
Lemma react_run_last_render (evs : list react_event) (i i' : Instance) :
  react_run evs i = Some i' ->
  (current_url i', current_options i')
  = last_render (current_url i) (current_options i) evs.
Proof.
  revert i. induction evs as [|ev evs IH]; intros i Hrun; cbn [react_run] in Hrun.
  - now injection Hrun as <-.
  - destruct (react_step ev i) as [i1|] eqn:Hstep; [|discriminate].
    rewrite last_render_cons, <- (react_step_last_render ev i i1 Hstep).
    cbn [fst snd]. now apply IH.
Qed.

(** While the renders pass the same arguments, every request is the
    same. *)
Lemma react_run_requests (url : string) (options : value)
    (evs : list react_event) (i i' : Instance) :
  react_run evs i = Some i' ->
  renders_keep url options evs ->
  current_url i = url ->
  current_options i = options ->
  Forall (eq (mkRequest url options)) (requests (world (controller i))) ->
  current_url i' = url
  /\ current_options i' = options
  /\ Forall (eq (mkRequest url options)) (requests (world (controller i'))).
Proof.
  revert i. induction evs as [|ev evs IH]; intros i Hrun Hkeep Hu Ho Hreq;
    cbn [react_run] in Hrun.
  - injection Hrun as <-. auto.
  - destruct (react_step ev i) as [i1|] eqn:Hstep; [|discriminate].
    apply Forall_cons in Hkeep as [Hev Hkeep].
    destruct ev as [url' options'|ev]; cbn [react_step] in Hstep.
    + destruct Hev as [-> ->]. rewrite Hu, String.eqb_refl in Hstep.
      injection Hstep as <-.
      apply (IH _ Hrun Hkeep); [reflexivity | reflexivity | exact Hreq].
    + rewrite Hu, Ho in Hstep.
      destruct (step url options ev (controller i)) as [c1|] eqn:Hc;
        [|discriminate].
      injection Hstep as <-.
      apply (IH _ Hrun Hkeep); [reflexivity | reflexivity |].
      cbn [controller]. eapply step_requests; eassumption.
Qed.

(** C6 (as amended).  In every state of a mounted hook a call of
    [refetch] sets [loading] to true in the same turn, before the new
    attempt reaches its first suspension point, and leaves the attempt
    waiting for its [fetch].  The request carries the url and options
    of the latest render, the one that returned this [refetch]; they are
    those of the original attempt as long as no render passed other
    arguments. *)
Theorem refetch_uses_latest_render
    (url : string) (options : value) (evs : list react_event) (i : Instance) :
  mount url options ≫= react_run evs = Some i ->
  exists i',
    react_step (Loop Trigger) i = Some i'
    /\ loading (hook (world (controller i'))) = true
    /\ status_of (hook (world (controller i'))) = Pending
    /\ inflight (controller i') !! next_id (controller i) = Some AwaitFetch
    /\ requests (world (controller i'))
       = (requests (world (controller i))
          ++ [mkRequest (fst (last_render url options evs))
                        (snd (last_render url options evs))])%list
    /\ (renders_keep url options evs ->
        Forall (eq (mkRequest url options)) (requests (world (controller i')))).
Proof.
  rewrite mount_started. cbn [mbind option_bind]. intros Hrun.
  pose proof (react_run_last_render evs _ i Hrun) as Hlast.
  cbn [current_url current_options] in Hlast. rewrite <- Hlast. cbn [fst snd].
  eexists. cbn [react_step]. rewrite step_Trigger.
  split; [reflexivity|]. split_and!; try reflexivity.
  - cbn. apply lookup_insert_eq.
  - intros Hkeep.
    destruct (react_run_requests url options evs _ i Hrun Hkeep)
      as (Hu & Ho & Hreq); try reflexivity.
    { cbn. repeat constructor. }
    cbn. rewrite Hu, Ho. apply Forall_app. split; [exact Hreq|].
    now constructor.
Qed.

Lemma refetch_uses_latest_render_witness :
  exists i,
    mount users_url default_options
    ≫= react_run [Loop (FetchSettles 0 (Resolved server_error));
                  Render users_url post_options] = Some i
    /\ exists i',
        react_step (Loop Trigger) i = Some i'
        /\ loading (hook (world (controller i'))) = true
        /\ status_of (hook (world (controller i'))) = Pending
        /\ inflight (controller i') !! next_id (controller i) = Some AwaitFetch
        /\ requests (world (controller i'))
           = (requests (world (controller i))
              ++ [mkRequest users_url post_options])%list.
Proof.
  eexists. split; [vm_compute; reflexivity|].
  destruct (refetch_uses_latest_render users_url default_options
              [Loop (FetchSettles 0 (Resolved server_error));
               Render users_url post_options] _ eq_refl)
    as (i' & Hstep & Hl & Hst & Hfl & Hreq & _).
  exists i'. split_and!; assumption.
Defined.

(** C6, counterexample.  The component is mounted with the default
    options and rendered again with other options; the url is the same,
    so no attempt starts.  The [refetch] that follows sends the new
    options, not those of the original attempt. *)
Lemma refetch_after_render_sends_other_options :
  exists i,
    mount users_url default_options
    ≫= react_run [Render users_url post_options; Loop Trigger] = Some i
    /\ requests (world (controller i))
       = [mkRequest users_url default_options; mkRequest users_url post_options]
    /\ mkRequest users_url post_options <> mkRequest users_url default_options
    /\ loading (hook (world (controller i))) = true.
Proof.
  eexists. split; [vm_compute; reflexivity|].
  cbn. split_and!; [reflexivity | discriminate | reflexivity].
Qed.

(** X15.  A render that changes only [options] starts no attempt and
    touches nothing; the new options are used by the next call of
    [refetch]. *)
Theorem options_change_does_not_refetch (i : Instance) (options' : value) :
  exists i1 i2,
    react_step (Render (current_url i) options') i = Some i1
    /\ controller i1 = controller i
    /\ react_step (Loop Trigger) i1 = Some i2
    /\ requests (world (controller i2))
       = (requests (world (controller i))
          ++ [mkRequest (current_url i) options'])%list.
Proof.
  do 2 eexists. cbn [react_step]. rewrite String.eqb_refl.
  split; [reflexivity|]. split; [reflexivity|].
  cbn [current_url current_options controller]. rewrite step_Trigger.
  split; reflexivity.
Qed.

(** X16.  A render with another [url] starts one attempt for that url,
    with that render's options, and sets [loading]; [data] and [error]
    of the old url stay in their cells, and the attempts in flight for
    the old url are not cancelled. *)
Theorem url_change_refetches (i : Instance) (url : string) (options : value) :
  url <> current_url i ->
  exists i',
    react_step (Render url options) i = Some i'
    /\ current_url i' = url
    /\ requests (world (controller i'))
       = (requests (world (controller i)) ++ [mkRequest url options])%list
    /\ loading (hook (world (controller i'))) = true
    /\ data (hook (world (controller i'))) = data (hook (world (controller i)))
    /\ error (hook (world (controller i'))) = error (hook (world (controller i)))
    /\ forall id st,
         id <> next_id (controller i) ->
         inflight (controller i) !! id = Some st ->
         inflight (controller i') !! id = Some st.
Proof.
  intros Hne. eexists. cbn [react_step].
  apply String.eqb_neq in Hne. rewrite Hne, step_Trigger.
  split; [reflexivity|]. split_and!; try reflexivity.
  intros id st Hid Hfl. cbn. now rewrite lookup_insert_ne by congruence.
Qed.

(** X17.  The url changes while the first attempt is in flight; the
    attempt for the new url completes, then the one for the old url.
    The hook, now bound to the new url, ends up exposing the payload of
    the old one. *)
Theorem stale_attempt_overwrites_new_url
    (u1 u2 : string) (o1 o2 : value) (r1 r2 : Response) (v1 v2 : value) :
  u1 <> u2 ->
  ok r1 = true -> json r1 = Resolved v1 ->
  ok r2 = true -> json r2 = Resolved v2 ->
  exists i,
    mount u1 o1
    ≫= react_run (Render u2 o2
                  :: map Loop (settle 1 (Resolved r2) ++ settle 0 (Resolved r1)))
    = Some i
    /\ current_url i = u2
    /\ requests (world (controller i)) = [mkRequest u1 o1; mkRequest u2 o2]
    /\ data (hook (world (controller i))) = v1
    /\ loading (hook (world (controller i))) = false
    /\ inflight (controller i) = ∅.
Proof.
  intros Hne Hok1 Hj1 Hok2 Hj2.
  assert (Hneq : String.eqb u2 u1 = false) by (apply String.eqb_neq; congruence).
  unfold mount. rewrite step_Trigger. cbn [fmap option_fmap option_map mbind option_bind].
  cbn [react_run react_step current_url controller]. rewrite Hneq, step_Trigger.
  cbn [fmap option_fmap option_map]. rewrite react_run_Loop, run_app.
  rewrite (run_settle u2 o2 _ 1 (Resolved r2)) by reflexivity.
  cbn [mbind option_bind].
  rewrite (run_settle u2 o2 _ 0 (Resolved r1))
    by (rewrite inflight_completed; reflexivity).
  cbn [outcome_of]. rewrite Hok1, Hj1, Hok2, Hj2.
  eexists. split; [reflexivity|]. split_and!; reflexivity.
Qed.

Lemma url_change_refetches_witness :
  exists i,
    mount users_url default_options = Some i
    /\ posts_url <> current_url i
    /\ exists i',
        react_step (Render posts_url default_options) i = Some i'
        /\ current_url i' = posts_url
        /\ requests (world (controller i'))
           = (requests (world (controller i))
              ++ [mkRequest posts_url default_options])%list
        /\ loading (hook (world (controller i'))) = true
        /\ data (hook (world (controller i'))) = data (hook (world (controller i)))
        /\ error (hook (world (controller i'))) = error (hook (world (controller i)))
        /\ forall id st,
             id <> next_id (controller i) ->
             inflight (controller i) !! id = Some st ->
             inflight (controller i') !! id = Some st.
Proof.
  eexists. split; [vm_compute; reflexivity|].
  split; [discriminate|].
  apply (url_change_refetches _ posts_url default_options). discriminate.
Defined.

Lemma stale_attempt_overwrites_new_url_witness :
  users_url <> posts_url
  /\ exists i,
      mount users_url default_options
      ≫= react_run (Render posts_url default_options
                    :: map Loop (settle 1 (Resolved posts_response)
                                 ++ settle 0 (Resolved ok_response)))
      = Some i
      /\ current_url i = posts_url
      /\ requests (world (controller i))
         = [mkRequest users_url default_options;
            mkRequest posts_url default_options]
      /\ data (hook (world (controller i))) = two_users
      /\ loading (hook (world (controller i))) = false
      /\ inflight (controller i) = ∅.
Proof.
  split; [discriminate|].
  apply (stale_attempt_overwrites_new_url users_url posts_url
           default_options default_options ok_response posts_response
           two_users two_posts); [discriminate | reflexivity ..].
Defined.

(** * The components before the refactoring *)

Lemma legacy_outcome_ok (failure : string) (p : settled Response) :
  status_rejected p = false -> legacy_outcome failure p = outcome_of p.
Proof. unfold legacy_outcome. now intros ->. Qed.

(** The effect of lines 71-87 by its outcome. *)
Lemma legacy_effect_outcome (url failure : string) (p : settled Response)
    (w : World) :
  legacy_effect url failure p w
  = match legacy_outcome failure p with
    | Returned v =>
        (Normal tt,
         {| hook := {| data := v; loading := false; error := error (hook w) |};
            console := console w;
            requests := requests w ++ [mkRequest url VUndefined] |})
    | Raised e =>
        if nullish e then
          (Throw (new_TypeError "message"),
           {| hook := hook w; console := console w;
              requests := requests w ++ [mkRequest url VUndefined] |})
        else
          (Normal tt,
           {| hook := {| data := data (hook w); loading := false;
                         error := message e |};
              console := console w;
              requests := requests w ++ [mkRequest url VUndefined] |})
    end.
Proof.
  unfold legacy_outcome, legacy_effect, or_catch, legacy_check, bind.
  destruct p as [r|e]; cbn [status_rejected outcome_of fetch await ret].
  - destruct (ok r); cbn [negb throw ret legacy_catch]; [|reflexivity].
    destruct (json r) as [v|e]; cbn; [reflexivity|].
    destruct e; reflexivity.
  - cbn. destruct e; reflexivity.
Qed.

Section Refactoring.

Variable url : string.
Variable options : value.
Variable failure : string.

(** X18.  On a successful answer the refactoring changes nothing the
    consumer can see: the old effect and the mount attempt of the hook
    end with the same [data], [loading] and [error]. *)
Theorem refactoring_keeps_success (r : Response) (v : value) :
  ok r = true ->
  json r = Resolved v ->
  exposed url options (attempt fresh (Resolved r)) fresh
  = Some (hook (snd (legacy_effect url failure (Resolved r) legacy_world)))
  /\ hook (snd (legacy_effect url failure (Resolved r) legacy_world))
     = {| data := v; loading := false; error := VNull |}.
Proof.
  intros Hok Hjson. rewrite exposed_attempt, legacy_effect_outcome.
  unfold legacy_outcome. cbn [status_rejected outcome_of].
  rewrite Hok, Hjson. cbn. split; reflexivity.
Qed.

(** X19.  The [finally] of the hook repairs a defect of the old chain:
    when the thrown value is [null] or [undefined], the old [catch]
    callback throws before it clears [loading], and the component shows
    its loading text for ever; the hook clears [loading]. *)
Theorem legacy_spinner_stuck_on_thrown_null (p : settled Response) (e : value) :
  outcome_of p = Raised e ->
  nullish e = true ->
  legacy_effect url failure p legacy_world
  = (Throw (new_TypeError "message"),
     {| hook := legacy_state; console := [];
        requests := [mkRequest url VUndefined] |})
  /\ Users_before (hook (snd (legacy_effect url failure p legacy_world)))
     = Normal (Tag "p" (class "loading") [Text "Loading users..."])
  /\ exists h,
      exposed url options (attempt fresh p) fresh = Some h
      /\ loading h = false.
Proof.
  intros Hout Hn.
  assert (Hst : status_rejected p = false).
  { destruct p as [r|e']; [|reflexivity]. cbn in *.
    destruct (ok r); [reflexivity|].
    injection Hout as <-. discriminate. }
  rewrite legacy_effect_outcome, (legacy_outcome_ok _ _ Hst), Hout, Hn.
  split; [reflexivity|]. split; [reflexivity|].
  eexists. split; [apply exposed_attempt|]. apply loading_completed.
Qed.

(** X20.  The refactoring turned a blank list into a crash: when an
    attempt fails with a thrown value whose message is not truthy, the
    old component, whose list starts as [[]], renders an empty list; the
    new one, whose [data] starts as null, throws while rendering. *)
Theorem refactoring_crashes_where_legacy_was_blank
    (p : settled Response) (e : value) :
  outcome_of p = Raised e ->
  nullish e = false ->
  truthy (message e) = false ->
  Users_before (hook (snd (legacy_effect url failure p legacy_world)))
  = Normal (Tag "div" (class "container")
              [Tag "h2" plain [Text "Users"]; Tag "ul" plain []])
  /\ exists h,
      exposed url options (attempt fresh p) fresh = Some h
      /\ Users h = Throw (new_TypeError "map").
Proof.
  intros Hout Hn Hmsg.
  assert (Hst : status_rejected p = false).
  { destruct p as [r|e']; [|reflexivity]. cbn in *.
    destruct (ok r); [reflexivity|].
    injection Hout as <-. discriminate. }
  rewrite legacy_effect_outcome, (legacy_outcome_ok _ _ Hst), Hout, Hn.
  split.
  - unfold Users_before. cbn [snd hook loading error data legacy_world legacy_state].
    rewrite Hmsg. reflexivity.
  - eexists. split; [apply exposed_attempt|].
    rewrite Hout. cbn [completed]. rewrite world_resume. unfold handled.
    rewrite Hn. unfold Users. cbn [snd hook loading error data].
    rewrite Hmsg. reflexivity.
Qed.

(** X21.  The old effect and the hook store the same [error] for every
    answer except a response that is not [ok]: there the old component
    stores its own text and the hook the one text it has for all
    consumers. *)
Theorem refactoring_keeps_error_cell (p : settled Response) :
  exists h,
    exposed url options (attempt fresh p) fresh = Some h
    /\ error (hook (snd (legacy_effect url failure p legacy_world)))
       = (if status_rejected p then VStr failure else error h)
    /\ (status_rejected p = true -> error h = VStr "Failed to fetch data").
Proof.
  eexists. split; [apply exposed_attempt|].
  rewrite legacy_effect_outcome. unfold legacy_outcome.
  destruct p as [r|e]; cbn [status_rejected outcome_of].
  - destruct (ok r); cbn [negb].
    + split; [|discriminate].
      destruct (json r) as [v|e]; cbn [completed]; [reflexivity|].
      rewrite world_resume. unfold handled. destruct (nullish e); reflexivity.
    + split; [reflexivity|]. intros _. reflexivity.
  - split; [|discriminate]. cbn [completed].
    rewrite world_resume. unfold handled. destruct (nullish e); reflexivity.
Qed.

End Refactoring.

(** * Witnesses *)

Lemma Users_lists_every_item_witness :
  Users {| data := two_users; loading := false; error := VNull |}
  = Normal (Tag "div" (class "container")
              [Tag "h2" plain [Text "Users"];
               Tag "button" (clicks Refetch) [Text "Refresh Posts"];
               Tag "ul" plain
                 [Tag "li" (keyed (VNum 1)) [Expr (VStr "a")];
                  Tag "li" (keyed (VNum 2)) [Expr (VStr "b")]]]).
Proof.
  apply (Users_lists_every_item
           {| data := two_users; loading := false; error := VNull |}
           [VObj [("id", VNum 1); ("name", VStr "a")];
            VObj [("id", VNum 2); ("name", VStr "b")]]); reflexivity.
Defined.

Lemma Posts_lists_every_item_witness :
  Posts {| data := two_posts; loading := false; error := VNull |}
  = Normal (Tag "div" (class "container")
              [Tag "h2" plain [Text "Posts"];
               Tag "button" (clicks Refetch) [Text "Refresh Posts"];
               Tag "ul" plain
                 [Tag "li" (keyed (VNum 1)) [Expr (VStr "a")];
                  Tag "li" (keyed (VNum 2)) [Expr (VStr "b")]]]).
Proof.
  apply (Posts_lists_every_item
           {| data := two_posts; loading := false; error := VNull |}
           [VObj [("id", VNum 1); ("title", VStr "a")];
            VObj [("id", VNum 2); ("title", VStr "b")]]); reflexivity.
Defined.

Lemma render_throws_without_array_witness :
  Users {| data := VObj [("users", two_users)]; loading := false; error := VNull |}
  = Throw (not_a_function "data.map")
  /\ Posts {| data := VObj [("users", two_users)]; loading := false;
              error := VNull |}
     = Users {| data := VObj [("users", two_users)]; loading := false;
                error := VNull |}.
Proof.
  apply (render_throws_without_array
           {| data := VObj [("users", two_users)]; loading := false;
              error := VNull |}); reflexivity.
Defined.

Lemma render_throws_on_null_item_witness :
  (exists prop,
      (prop = "id" \/ prop = "name")
      /\ Users {| data := VArr [VObj [("id", VNum 1); ("name", VStr "a")]; VNull];
                  loading := false; error := VNull |}
         = Throw (new_TypeError prop))
  /\ (exists prop,
         (prop = "id" \/ prop = "title")
         /\ Posts {| data := VArr [VObj [("id", VNum 1); ("name", VStr "a")]; VNull];
                     loading := false; error := VNull |}
            = Throw (new_TypeError prop)).
Proof.
  apply (render_throws_on_null_item
           {| data := VArr [VObj [("id", VNum 1); ("name", VStr "a")]; VNull];
              loading := false; error := VNull |}
           [VObj [("id", VNum 1); ("name", VStr "a")]; VNull]); reflexivity.
Defined.

Lemma mount_success_renders_list_witness :
  exists h,
    exposed users_url default_options (attempt fresh (Resolved ok_response)) fresh
    = Some h
    /\ Users h
       = Normal (Tag "div" (class "container")
                   [Tag "h2" plain [Text "Users"];
                    Tag "button" (clicks Refetch) [Text "Refresh Posts"];
                    Tag "ul" plain
                      (map (entry_of "name")
                         [VObj [("id", VNum 1); ("name", VStr "a")];
                          VObj [("id", VNum 2); ("name", VStr "b")]])]).
Proof.
  apply (mount_success_renders_list users_url default_options ok_response
           [VObj [("id", VNum 1); ("name", VStr "a")];
            VObj [("id", VNum 2); ("name", VStr "b")]]); reflexivity.
Defined.

Lemma silent_failure_crashes_Users_witness :
  exists h,
    exposed users_url default_options
      (attempt fresh (Rejected (new_Error ""))) fresh = Some h
    /\ status_of h = Succeeded
    /\ data h = VNull
    /\ Users h = Throw (new_TypeError "map").
Proof.
  apply (silent_failure_crashes_Users users_url default_options
           (Rejected (new_Error "")) (new_Error "")); reflexivity.
Defined.

Lemma no_retry_after_failure_witness :
  exists h,
    exposed users_url default_options (attempt fresh (Resolved server_error)) fresh
    = Some h
    /\ Users h
       = Normal (Tag "p" (class "error")
                   [Text "Error: ";
                    Expr (message (new_Error "Failed to fetch data"))])
    /\ forall el, Users h = Normal el -> handlers el = [].
Proof.
  apply (no_retry_after_failure users_url default_options fresh
           (Resolved server_error) (new_Error "Failed to fetch data"));
    reflexivity.
Defined.

Lemma error_view_survives_successes_witness :
  run users_url default_options (attempt fresh (Resolved server_error)) fresh
  = Some failed_once
  /\ exists c',
      run users_url default_options
        (attempt failed_once (Resolved ok_response)) failed_once = Some c'
      /\ data (hook (world c')) = two_users
      /\ Users (hook (world c'))
         = Normal (Tag "p" (class "error")
                     [Text "Error: "; Expr (error (hook (world failed_once)))]).
Proof.
  split; [vm_compute; reflexivity|].
  eexists. split; [vm_compute; reflexivity|]. split; [reflexivity|].
  apply (error_view_survives_successes users_url default_options
           (attempt failed_once (Resolved ok_response)) failed_once).
  - vm_compute; reflexivity.
  - reflexivity.
  - intros id r Hid. cbn in Hid. rewrite lookup_empty in Hid. discriminate.
  - reflexivity.
  - reflexivity.
Defined.

Lemma one_request_per_call_witness :
  exists c',
    run users_url default_options
      [Trigger; FetchSettles 0 (Resolved server_error); Trigger;
       FetchSettles 1 (Rejected VNull)] fresh = Some c'
    /\ length (requests (world c'))
       = length (requests (world fresh))
         + triggers [Trigger; FetchSettles 0 (Resolved server_error); Trigger;
                     FetchSettles 1 (Rejected VNull)]
    /\ next_id c'
       = next_id fresh
         + triggers [Trigger; FetchSettles 0 (Resolved server_error); Trigger;
                     FetchSettles 1 (Rejected VNull)].
Proof.
  eexists. split; [vm_compute; reflexivity|].
  apply (one_request_per_call users_url default_options
           [Trigger; FetchSettles 0 (Resolved server_error); Trigger;
            FetchSettles 1 (Rejected VNull)] fresh).
  vm_compute; reflexivity.
Defined.

Lemma loading_means_in_flight_witness :
  exists c',
    run users_url default_options
      [Trigger; FetchSettles 0 (Resolved ok_response)] fresh = Some c'
    /\ loading (hook (world c')) = true
    /\ exists id st, inflight c' !! id = Some st.
Proof.
  eexists. split; [vm_compute; reflexivity|]. split; [reflexivity|].
  apply (loading_means_in_flight users_url default_options
           [Trigger; FetchSettles 0 (Resolved ok_response)] fresh).
  - discriminate.
  - vm_compute; reflexivity.
  - reflexivity.
Defined.

Lemma failures_stay_inside_witness :
  exists c,
    run users_url default_options
      [Trigger; Trigger; FetchSettles 1 (Resolved broken_body);
       FetchSettles 0 (Resolved server_error); JsonSettles 1] fresh = Some c
    /\ unhandled c = [].
Proof.
  eexists. split; [vm_compute; reflexivity|].
  apply (failures_stay_inside users_url default_options
           [Trigger; Trigger; FetchSettles 1 (Resolved broken_body);
            FetchSettles 0 (Resolved server_error); JsonSettles 1]).
  - vm_compute; reflexivity.
  - reflexivity.
Defined.

Lemma data_comes_from_an_ok_response_witness :
  exists c,
    run users_url default_options
      [Trigger; FetchSettles 0 (Resolved server_error); Trigger;
       FetchSettles 1 (Resolved ok_response); JsonSettles 1] fresh = Some c
    /\ (data (hook (world c)) = VNull
        \/ exists r,
             In (Resolved r)
               (answers [Trigger; FetchSettles 0 (Resolved server_error); Trigger;
                         FetchSettles 1 (Resolved ok_response); JsonSettles 1])
             /\ ok r = true
             /\ json r = Resolved (data (hook (world c)))).
Proof.
  eexists. split; [vm_compute; reflexivity|].
  apply (data_comes_from_an_ok_response users_url default_options
           [Trigger; FetchSettles 0 (Resolved server_error); Trigger;
            FetchSettles 1 (Resolved ok_response); JsonSettles 1]).
  vm_compute; reflexivity.
Defined.

Lemma refactoring_keeps_success_witness :
  exposed users_url default_options (attempt fresh (Resolved ok_response)) fresh
  = Some (hook (snd (legacy_effect users_url "Failed to fetch users"
                       (Resolved ok_response) legacy_world)))
  /\ hook (snd (legacy_effect users_url "Failed to fetch users"
                  (Resolved ok_response) legacy_world))
     = {| data := two_users; loading := false; error := VNull |}.
Proof.
  apply (refactoring_keeps_success users_url default_options
           "Failed to fetch users" ok_response two_users); reflexivity.
Defined.

Lemma legacy_spinner_stuck_on_thrown_null_witness :
  legacy_effect users_url "Failed to fetch users" (Rejected VNull) legacy_world
  = (Throw (new_TypeError "message"),
     {| hook := legacy_state; console := [];
        requests := [mkRequest users_url VUndefined] |})
  /\ Users_before
       (hook (snd (legacy_effect users_url "Failed to fetch users"
                     (Rejected VNull) legacy_world)))
     = Normal (Tag "p" (class "loading") [Text "Loading users..."])
  /\ exists h,
      exposed users_url default_options (attempt fresh (Rejected VNull)) fresh
      = Some h
      /\ loading h = false.
Proof.
  apply (legacy_spinner_stuck_on_thrown_null users_url default_options
           "Failed to fetch users" (Rejected VNull) VNull); reflexivity.
Defined.

Lemma refactoring_crashes_where_legacy_was_blank_witness :
  Users_before
    (hook (snd (legacy_effect users_url "Failed to fetch users"
                  (Rejected (VStr "cancelled")) legacy_world)))
  = Normal (Tag "div" (class "container")
              [Tag "h2" plain [Text "Users"]; Tag "ul" plain []])
  /\ exists h,
      exposed users_url default_options
        (attempt fresh (Rejected (VStr "cancelled"))) fresh = Some h
      /\ Users h = Throw (new_TypeError "map").
Proof.
  apply (refactoring_crashes_where_legacy_was_blank users_url default_options
           "Failed to fetch users" (Rejected (VStr "cancelled"))
           (VStr "cancelled")); reflexivity.
Defined.
